(** * Lead allocation and deduplication engine

    A shallow embedding of the delivery path of the lead-generation
    service: [DeduplicationService] (deduplication.py), the delivery
    routine of [LeadProcessor] (services/lead_processor.py), the
    [process_delivery] handler (app.py), the quota update of the
    scheduler (services/scheduler.py) and the [delivered_leads] table
    of [DatabaseManager] (database.py); further the maintenance of the
    deduplication dictionaries ([clean_old_records],
    [get_deduplication_stats]), [process_uploaded_leads],
    [run_manual_processing] and the [leads] table of
    [DatabaseManager].

    Conventions.
    - A [datetime] is an integer number of microseconds (the resolution
      of Python's [datetime]); [timedelta(days=d)] is [d * 86400000000].
    - Python dictionaries keyed by e-mail are [gmap string _].
    - A call that may raise returns [Exc A = Error + A]; [inl e] is a
      raised exception, [inr a] a normal return.
    - Mutable service state is passed explicitly.
    - What the outside world does during one run (the clock, whether
      building a lead raises, whether the export or the database write
      fails) is read from an environment record [Env]. *)

From Stdlib Require Import ZArith Lia Sorting.Sorted.
From stdpp Require Import base gmap sets list strings sorting pretty.

Open Scope string_scope.
Open Scope Z_scope.

(** ** Exceptions *)

Inductive Error : Type :=
  | ValueError (msg : string)
  | KeyError (key : string)
  | OSError
  | JSONDecodeError
  | IntegrityError
  | OperationalError.

Definition Exc (A : Type) : Type := (Error + A)%type.

Definition ret {A : Type} (a : A) : Exc A := inr a.
Definition raise {A : Type} (e : Error) : Exc A := inl e.

Definition exc_bind {A B : Type} (m : Exc A) (k : A -> Exc B) : Exc B :=
  match m with
  | inl e => inl e
  | inr a => k a
  end.

Notation "x <- m ;; k" := (exc_bind m (fun x => k))
  (at level 100, m at next level, right associativity).

(** [try: body except Exception: return dflt] *)
Definition try_except {A : Type} (body : Exc A) (dflt : A) : A :=
  match body with
  | inl _ => dflt
  | inr a => a
  end.

Definition raises {A : Type} (m : Exc A) : Prop := exists e, m = inl e.

(** ** Time *)

Definition datetime := Z.

Definition timedelta_days (d : Z) : Z := d * 86400000000.

(** The dictionaries hold [datetime.isoformat()] strings.  A value the
    service wrote itself parses back to the instant it was made from; a
    value that came from the JSON file may be anything. *)
Inductive IsoString : Type :=
  | Iso (t : datetime)
  | Malformed (raw : string).

Definition isoformat (t : datetime) : IsoString := Iso t.

Definition fromisoformat (s : IsoString) : Exc datetime :=
  match s with
  | Iso t => ret t
  | Malformed raw => raise (ValueError ("Invalid isoformat string: " +:+ raw))
  end.

(** ** config.py *)

Module Config.
Record PlanConfiguration := {
  max_leads : Z;
  exclusive_option : bool;
  ai_personalization : bool;
  priority : Z
}.

Definition PLAN_CONFIGURATIONS (plan : string) : option PlanConfiguration :=
  if String.eqb plan "basic" then
    Some {| max_leads := 100; exclusive_option := false;
            ai_personalization := false; priority := 3 |}
  else if String.eqb plan "pro" then
    Some {| max_leads := 250; exclusive_option := true;
            ai_personalization := true; priority := 2 |}
  else if String.eqb plan "premium" then
    Some {| max_leads := 500; exclusive_option := true;
            ai_personalization := true; priority := 1 |}
  else None.

Definition DEDUPLICATION_WINDOW_DAYS : Z := 30.
End Config.

(** ** Loops that may raise *)

(** [for a in l: s = f(s, a)], stopping at the first exception. *)
Fixpoint exc_fold {A S : Type} (f : S -> A -> Exc S) (l : list A) (s : S)
    : Exc S :=
  match l with
  | [] => ret s
  | a :: l' => s' <- f s a ;; exc_fold f l' s'
  end.

(** [l[:m]] for a Python integer [m]: a negative [m] counts from the
    end. *)
Definition slice_to {A : Type} (m : Z) (l : list A) : list A :=
  if 0 <=? m then take (Z.to_nat m) l
  else take (Z.to_nat (Z.of_nat (length l) + m)) l.

Definition startswith (pre s : string) : bool := String.prefix pre s.

Fixpoint endswith (suf s : string) : bool :=
  String.eqb suf s ||
  match s with
  | EmptyString => false
  | String _ s' => endswith suf s'
  end.

(** ** pandas.DataFrame, as far as the deduplication uses it

    A frame is its column labels and its rows, each row a list of cells
    aligned with the labels. *)

Record DataFrame := {
  columns : list string;
  rows : list (list string)
}.

Fixpoint column_index (label : string) (cols : list string) : option nat :=
  match cols with
  | [] => None
  | c :: cols' =>
      if String.eqb c label then Some O
      else S <$> column_index label cols'
  end.

Definition cell (i : nat) (row : list string) : string := nth i row "".

(** Rows whose key has not occurred in an earlier row. *)
Fixpoint keep_first (key : list string -> string) (seen : gset string)
    (l : list (list string)) : list (list string) :=
  match l with
  | [] => []
  | r :: l' =>
      if bool_decide (key r ∈ seen) then keep_first key seen l'
      else r :: keep_first key ({[key r]} ∪ seen) l'
  end.

(** [df.drop_duplicates(subset=[label], keep='first')] *)
Definition drop_duplicates (label : string) (df : DataFrame) : Exc DataFrame :=
  match column_index label (columns df) with
  | None => raise (KeyError label)
  | Some i =>
      ret {| columns := columns df;
             rows := keep_first (cell i) ∅ (rows df) |}
  end.

(** [df[~df[label].isin(values)]] *)
Definition drop_isin (label : string) (values : gset string) (df : DataFrame)
    : Exc DataFrame :=
  match column_index label (columns df) with
  | None => raise (KeyError label)
  | Some i =>
      ret {| columns := columns df;
             rows := filter (fun r => cell i r ∉ values) (rows df) |}
  end.

(** ** deduplication.py: DeduplicationService *)

Record DedupState := {
  delivered_leads : gmap string IsoString;
  exclusive_leads : gmap string IsoString
}.

Definition empty_dedup : DedupState :=
  {| delivered_leads := ∅; exclusive_leads := ∅ |}.

Module DeduplicationService.
Section WithConfig.

(** [self.config.DEDUPLICATION_WINDOW_DAYS] *)
Variable window_days : Z.

(** [is_lead_delivered]: no [try] in the source, a malformed date
    propagates. *)
Definition is_lead_delivered (s : DedupState) (now : datetime)
    (email : string) : Exc bool :=
  match delivered_leads s !! email with
  | None => ret false
  | Some stored =>
      delivery_date <- fromisoformat stored ;;
      let cutoff_date := now - timedelta_days window_days in
      ret (cutoff_date <? delivery_date)
  end.

Definition is_lead_exclusive_delivered (s : DedupState)
    (email : string) : bool :=
  match exclusive_leads s !! email with
  | Some _ => true
  | None => false
  end.

(** Body of the [for email in emails] loop of
    [mark_leads_as_delivered]. *)
Definition mark_one (current_time : IsoString) (exclusive : bool)
    (s : DedupState) (email : string) : DedupState :=
  let d := <[email := current_time]> (delivered_leads s) in
  if exclusive then
    {| delivered_leads := d;
       exclusive_leads := <[email := current_time]> (exclusive_leads s) |}
  else
    {| delivered_leads := d; exclusive_leads := exclusive_leads s |}.

(** [mark_leads_as_delivered(emails, exclusive=False)].  Saving the two
    dictionaries to their JSON files does not change them, and a
    failing save is logged and swallowed. *)
Definition mark_leads_as_delivered (now : datetime) (emails : list string)
    (exclusive : bool) (s : DedupState) : DedupState :=
  let current_time := isoformat now in
  fold_left (mark_one current_time exclusive) emails s.

(** The set comprehension [recent_delivered] of [remove_duplicates]:
    every stored date is parsed, whether or not its e-mail occurs in
    the frame. *)
Definition recent_delivered (s : DedupState) (now : datetime)
    : Exc (gset string) :=
  let cutoff_date := now - timedelta_days window_days in
  exc_fold
    (fun (acc : gset string) (item : string * IsoString) =>
       delivery_date <- fromisoformat item.2 ;;
       ret (if cutoff_date <? delivery_date then {[item.1]} ∪ acc else acc))
    (map_to_list (delivered_leads s)) ∅.

(** The [try] block of [remove_duplicates]. *)
Definition remove_duplicates_body (s : DedupState) (now : datetime)
    (df : DataFrame) : Exc DataFrame :=
  df_deduplicated <- drop_duplicates "email" df ;;
  recent <- recent_delivered s now ;;
  df_final <- drop_isin "email" recent df_deduplicated ;;
  ret df_final.

(** [remove_duplicates]: [except Exception: return df]. *)
Definition remove_duplicates (s : DedupState) (now : datetime)
    (df : DataFrame) : DataFrame :=
  try_except (remove_duplicates_body s now df) df.

End WithConfig.
End DeduplicationService.

(** ** models.py and the dictionaries passed around *)

(** One entry of a [data/processed_leads_*.json] file, as written by
    [process_uploaded_leads]. *)
Record LeadData := {
  first_name : string;
  last_name : string;
  company : string;
  title : string;
  email : string;
  linkedin : string;
  processed_at : datetime
}.

(** A row of the [clients] table (or an entry of [data/clients.json]). *)
Module Client.
Record t := {
  id : Z;
  name : string;
  plan : string;
  exclusive : bool;
  lead_count : Z;
  email : string;
  remaining_quota : Z;
  active : bool
}.

Definition set_remaining_quota (q : Z) (c : t) : t :=
  {| id := id c; name := name c; plan := plan c; exclusive := exclusive c;
     lead_count := lead_count c; email := email c; remaining_quota := q;
     active := active c |}.
End Client.

(** The [Lead] dataclass.  [lead_number] is the [i + 1] from which
    [_generate_lead_id] builds the id; the generated texts are left
    out. *)
Module Lead.
Record t := {
  lead_number : nat;
  client_name : string;
  source : LeadData;
  email : string;
  verified : bool;
  exclusive : bool
}.
End Lead.

(** The dictionary returned by [process_client_delivery];
    [csv_rows] is the content of the delivery file it wrote. *)
Record DeliveryResult := {
  leads_delivered : Z;
  csv_rows : list Lead.t
}.

(** A file of the [data] directory as [json.load] sees it. *)
Inductive FileContent : Type :=
  | JsonLeads (leads : list LeadData)
  | NotJson.

Definition json_load (f : FileContent) : Exc (list LeadData) :=
  match f with
  | JsonLeads leads => ret leads
  | NotJson => raise JSONDecodeError
  end.

(** [os.listdir('data')] with the content of each file, in listing
    order. *)
Definition Directory := list (string * FileContent).

(** What the outside world does during one run. *)
Record Env := {
  now : datetime;
  (** building the [Lead] for this entry raises inside the per-lead
      [try] *)
  lead_raises : LeadData -> bool;
  (** [os.makedirs] and [to_csv] succeed *)
  export_ok : bool;
  (** the [SELECT] of [get_client_by_id] succeeds *)
  db_read_ok : bool;
  (** the [UPDATE] of [update_client_quota] succeeds *)
  db_write_ok : bool;
  (** the scheduler can rewrite [data/clients.json] *)
  clients_write_ok : bool
}.

(** ** services/lead_processor.py: LeadProcessor *)

Module LeadProcessor.
Section WithConfig.

Variable window_days : Z.

Import DeduplicationService.

(** The loop over [os.listdir(data_dir)]. *)
Definition load_processed_leads (dir : Directory) : Exc (list LeadData) :=
  exc_fold
    (fun (all_leads : list LeadData) (entry : string * FileContent) =>
       if startswith "processed_leads_" entry.1 && endswith ".json" entry.1
       then leads <- json_load entry.2 ;; ret (all_leads ++ leads)%list
       else ret all_leads)
    dir [].

(** Body of the loop [for lead in all_leads]. *)
Definition filter_step (s : DedupState) (now : datetime) (client : Client.t)
    (available_leads : list LeadData) (lead : LeadData)
    : Exc (list LeadData) :=
  delivered <- is_lead_delivered window_days s now (email lead) ;;
  if negb delivered then
    if Client.exclusive client then
      if negb (is_lead_exclusive_delivered s (email lead))
      then ret (available_leads ++ [lead])%list
      else ret available_leads
    else ret (available_leads ++ [lead])%list
  else ret available_leads.

Definition plan_priority (plan : string) : Z :=
  if String.eqb plan "premium" then 1
  else if String.eqb plan "pro" then 2
  else 3.

(** The [try] block of [_get_available_leads]. *)
Definition get_available_leads_body (s : DedupState) (now : datetime)
    (dir : Directory) (client : Client.t) : Exc (list LeadData) :=
  all_leads <- load_processed_leads dir ;;
  available_leads <- exc_fold (filter_step s now client) all_leads [] ;;
  let client_priority := plan_priority (Client.plan client) in
  ret available_leads.

(** [_get_available_leads]: [except Exception: return []]. *)
Definition _get_available_leads (s : DedupState) (now : datetime)
    (dir : Directory) (client : Client.t) : list LeadData :=
  try_except (get_available_leads_body s now dir client) [].

(** The loop [for i, lead_data in enumerate(leads_to_deliver)]: an
    entry whose processing raises is logged and skipped. *)
Fixpoint personalize (env : Env) (client : Client.t) (i : nat)
    (leads : list LeadData) : list Lead.t :=
  match leads with
  | [] => []
  | lead_data :: rest =>
      if lead_raises env lead_data then personalize env client (S i) rest
      else
        {| Lead.lead_number := S i;
           Lead.client_name := Client.name client;
           Lead.source := lead_data;
           Lead.email := email lead_data;
           Lead.verified := true;
           Lead.exclusive := Client.exclusive client |}
        :: personalize env client (S i) rest
  end.

(** [max_leads = min(client['remaining_quota'], client['lead_count'])] *)
Definition max_leads (client : Client.t) : Z :=
  Z.min (Client.remaining_quota client) (Client.lead_count client).

(** [process_client_delivery].  Returns the outcome and the state of
    the deduplication service afterwards.  The upload, the
    notification mail and the CRM entry are each wrapped in their own
    [try] and touch nothing modelled here. *)
Definition process_client_delivery (env : Env) (client : Client.t)
    (s : DedupState) (dir : Directory) : Exc DeliveryResult * DedupState :=
  let leads_to_deliver := _get_available_leads s (now env) dir client in
  match leads_to_deliver with
  | [] => (raise (ValueError "No leads available for delivery"), s)
  | _ :: _ =>
      let leads_to_deliver :=
        slice_to (max_leads client) leads_to_deliver in
      let personalized_leads := personalize env client O leads_to_deliver in
      match personalized_leads with
      | [] =>
          (raise (ValueError "No leads could be processed successfully"), s)
      | _ :: _ =>
          if export_ok env then
            let s' :=
              mark_leads_as_delivered (now env)
                (map Lead.email personalized_leads) false s in
            (ret {| leads_delivered := Z.of_nat (length personalized_leads);
                    csv_rows := personalized_leads |}, s')
          else (raise OSError, s)
      end
  end.

End WithConfig.
End LeadProcessor.

(** ** app.py: the [process_delivery] route *)

Record World := {
  dedup : DedupState;
  data_dir : Directory;
  clients : gmap Z Client.t
}.

Inductive Response : Type :=
  | Success (data : DeliveryResult)
  | NotFound
  | ServerError (e : Error).

Module App.
Section WithConfig.

Variable window_days : Z.

Definition process_delivery (env : Env) (client_id : Z) (w : World)
    : Response * World :=
  if negb (db_read_ok env) then (ServerError OperationalError, w) else
  match clients w !! client_id with
  | None => (NotFound, w)
  | Some client =>
      let '(outcome, s') :=
        LeadProcessor.process_client_delivery window_days env client
          (dedup w) (data_dir w) in
      match outcome with
      | inl e =>
          (ServerError e,
           {| dedup := s'; data_dir := data_dir w; clients := clients w |})
      | inr result =>
          let new_quota :=
            Z.max 0 (Client.remaining_quota client - leads_delivered result) in
          if db_write_ok env then
            (Success result,
             {| dedup := s'; data_dir := data_dir w;
                clients :=
                  <[client_id := Client.set_remaining_quota new_quota client]>
                    (clients w) |})
          else
            (ServerError OperationalError,
             {| dedup := s'; data_dir := data_dir w; clients := clients w |})
      end
  end.

(** Successive requests, one environment per request. *)
Fixpoint run_deliveries (envs : list Env) (client_id : Z) (w : World)
    : list Response * World :=
  match envs with
  | [] => ([], w)
  | env :: envs' =>
      let '(r, w') := process_delivery env client_id w in
      let '(rs, w'') := run_deliveries envs' client_id w' in
      (r :: rs, w'')
  end.

End WithConfig.
End App.

(** ** services/scheduler.py: the daily job

    [SchedulerService] builds a [LeadProcessor] of its own; the state
    [s] below is the state of that instance's deduplication service. *)

Module Scheduler.
Section WithConfig.

Variable window_days : Z.

(** The loop [for client in clients] of [_daily_processing_job]:
    the clients as they stand after the loop, [processed_count], and
    the state of the deduplication service. *)
Fixpoint process_clients (env : Env) (clients : list Client.t)
    (s : DedupState) (dir : Directory) : list Client.t * nat * DedupState :=
  match clients with
  | [] => ([], O, s)
  | client :: rest =>
      if Client.active client && (0 <? Client.remaining_quota client) then
        match LeadProcessor.process_client_delivery window_days env client
                s dir with
        | (inr result, s') =>
            let client' :=
              Client.set_remaining_quota
                (Z.max 0 (Client.remaining_quota client
                          - leads_delivered result)) client in
            let '(rest', n, s'') := process_clients env rest s' dir in
            (client' :: rest', S n, s'')
        | (inl _, s') =>
            let '(rest', n, s'') := process_clients env rest s' dir in
            (client :: rest', n, s'')
        end
      else
        let '(rest', n, s'') := process_clients env rest s dir in
        (client :: rest', n, s'')
  end.

(** [_daily_processing_job] on the content of [data/clients.json]
    ([None]: no such file).  Returns the content of the file and the
    state of the deduplication service afterwards. *)
Definition _daily_processing_job (env : Env)
    (clients_json : option (list Client.t)) (s : DedupState)
    (dir : Directory) : option (list Client.t) * DedupState :=
  match clients_json with
  | None => (None, s)
  | Some clients =>
      let '(clients', processed_count, s') :=
        process_clients env clients s dir in
      if (0 <? processed_count)%nat && clients_write_ok env
      then (Some clients', s')
      else (Some clients, s')
  end.

End WithConfig.
End Scheduler.

(** ** database.py: the [delivered_leads] table of DatabaseManager

    The table has [UNIQUE(email, fingerprint)]; the surrogate [id]
    column plays no part in any query below and is left out. *)

Module DatabaseManager.

Record DeliveredLeadRow := {
  email : string;
  fingerprint : string;
  exclusive : bool;
  delivered_at : datetime
}.

Definition Table := list DeliveredLeadRow.

Definition same_key (email' fingerprint' : string) (r : DeliveredLeadRow)
    : bool :=
  String.eqb (email r) email' && String.eqb (fingerprint r) fingerprint'.

(** [INSERT INTO delivered_leads (...) VALUES (...)], with or without
    [ON CONFLICT (email, fingerprint) DO NOTHING]. *)
Definition insert_row (on_conflict_do_nothing : bool) (r : DeliveredLeadRow)
    (tbl : Table) : Exc Table :=
  if existsb (same_key (email r) (fingerprint r)) tbl then
    if on_conflict_do_nothing then ret tbl else raise IntegrityError
  else ret (tbl ++ [r])%list.

(** [mark_lead_delivered(email, fingerprint, exclusive=False)];
    [delivered_at] takes its default [CURRENT_TIMESTAMP]. *)
Definition mark_lead_delivered (now : datetime) (email' fingerprint' : string)
    (exclusive' : bool) (tbl : Table) : Exc Table :=
  insert_row true
    {| email := email'; fingerprint := fingerprint';
       exclusive := exclusive'; delivered_at := now |} tbl.



End DatabaseManager.

(** ** deduplication.py: maintenance of the two dictionaries *)

Module DedupMaintenance.
Section WithConfig.

Variable window_days : Z.

(** The dictionary comprehension
    [{email: date for email, date in d.items()
      if datetime.fromisoformat(date) > cutoff}]:
    it raises when a date does not parse, whatever its e-mail. *)
Definition keep_newer (cutoff : datetime) (d : gmap string IsoString)
    : Exc (gmap string IsoString) :=
  exc_fold
    (fun (acc : gmap string IsoString) (item : string * IsoString) =>
       date <- fromisoformat item.2 ;;
       ret (if cutoff <? date then <[item.1 := item.2]> acc else acc))
    (map_to_list d) ∅.

(** [clean_old_records].  The two dictionaries are reassigned one after
    the other inside one [try]: when the second comprehension raises,
    the first assignment has already taken place. *)
Definition clean_old_records (s : DedupState) (now : datetime) : DedupState :=
  let cutoff_date := now - timedelta_days (window_days * 2) in
  match keep_newer cutoff_date (delivered_leads s) with
  | inl _ => s
  | inr delivered' =>
      let exclusive_cutoff := now - timedelta_days 90 in
      match keep_newer exclusive_cutoff (exclusive_leads s) with
      | inl _ =>
          {| delivered_leads := delivered';
             exclusive_leads := exclusive_leads s |}
      | inr exclusive' =>
          {| delivered_leads := delivered'; exclusive_leads := exclusive' |}
      end
  end.

(** The dictionary returned by [get_deduplication_stats] ([last_cleanup]
    is the time of the call). *)
Record Stats := {
  total_tracked_leads : nat;
  recent_delivered_leads : nat;
  exclusive_delivered_leads : nat;
  deduplication_window_days : Z;
  last_cleanup : IsoString
}.

(** [sum(1 for date in self.delivered_leads.values()
         if datetime.fromisoformat(date) > cutoff_date)] *)
Definition count_recent (cutoff_date : datetime) (d : gmap string IsoString)
    : Exc nat :=
  exc_fold
    (fun (n : nat) (date : IsoString) =>
       t <- fromisoformat date ;;
       ret (if cutoff_date <? t then S n else n))
    (map_to_list d).*2 O.

(** [get_deduplication_stats]; [None] is the empty dictionary returned
    by the [except] branch. *)
Definition get_deduplication_stats (s : DedupState) (now : datetime)
    : option Stats :=
  let cutoff_date := now - timedelta_days window_days in
  match count_recent cutoff_date (delivered_leads s) with
  | inl _ => None
  | inr recent_delivered =>
      Some {| total_tracked_leads := size (delivered_leads s);
              recent_delivered_leads := recent_delivered;
              exclusive_delivered_leads := size (exclusive_leads s);
              deduplication_window_days := window_days;
              last_cleanup := isoformat now |}
  end.

End WithConfig.
End DedupMaintenance.

(** ** services/lead_processor.py: [process_uploaded_leads] *)

Module Upload.
Section WithConfig.

Variable window_days : Z.

Definition required_columns : list string :=
  ["first_name"; "last_name"; "company"; "title"; "email"].

(** [', '.join(l)] *)
Fixpoint join_comma (l : list string) : string :=
  match l with
  | [] => ""
  | [x] => x
  | x :: rest => x +:+ ", " +:+ join_comma rest
  end.

(** [row[label]] for a label known to be a column. *)
Definition row_get (cols : list string) (label : string) (row : list string)
    : string :=
  match column_index label cols with
  | Some i => cell i row
  | None => ""
  end.

(** The dictionary built for one row; [row.get('linkedin', '')] is the
    empty string when the frame has no such column. *)
Definition lead_data_of_row (cols : list string) (t : datetime)
    (row : list string) : LeadData :=
  {| first_name := row_get cols "first_name" row;
     last_name := row_get cols "last_name" row;
     company := row_get cols "company" row;
     title := row_get cols "title" row;
     email := row_get cols "email" row;
     linkedin := row_get cols "linkedin" row;
     processed_at := t |}.

(** The loop over [df_deduplicated.iterrows()]; [clock i] is the
    reading of [datetime.now()] for the [i]-th row. *)
Fixpoint processed_leads_from (cols : list string) (clock : nat -> datetime)
    (i : nat) (rows : list (list string)) : list LeadData :=
  match rows with
  | [] => []
  | row :: rest =>
      lead_data_of_row cols (clock i) row
      :: processed_leads_from cols clock (S i) rest
  end.

(** [open(name, 'w')] followed by [json.dump]: an existing file of that
    name is replaced.  A new file is listed last here; [os.listdir]
    promises no order and no statement below depends on it. *)
Fixpoint write_file (name : string) (content : FileContent) (dir : Directory)
    : Directory :=
  match dir with
  | [] => [(name, content)]
  | (n, c) :: rest =>
      if String.eqb n name then (name, content) :: rest
      else (n, c) :: write_file name content rest
  end.

Record UploadResult := {
  leads_processed : nat;
  duplicates_removed : Z;
  processed_file : string
}.

(** [process_uploaded_leads].  [csv] is what [pd.read_csv] gives,
    [stamp] the [strftime('%Y%m%d_%H%M%S')] of the time of writing and
    [write_ok] whether the file can be written.  Returns the outcome and
    the [data] directory afterwards. *)
Definition process_uploaded_leads (s : DedupState) (now : datetime)
    (clock : nat -> datetime) (stamp : string) (write_ok : bool)
    (csv : Exc DataFrame) (dir : Directory) : Exc UploadResult * Directory :=
  match csv with
  | inl e => (raise e, dir)
  | inr df =>
      let missing_columns :=
        List.filter
          (fun col => negb (bool_decide (col ∈ columns df)))
          required_columns in
      match missing_columns with
      | _ :: _ =>
          (raise (ValueError ("Missing required columns: "
                              +:+ join_comma missing_columns)), dir)
      | [] =>
          let original_count := length (rows df) in
          let df_deduplicated :=
            DeduplicationService.remove_duplicates window_days s now df in
          let duplicates_removed :=
            Z.of_nat original_count
            - Z.of_nat (length (rows df_deduplicated)) in
          let processed_leads :=
            processed_leads_from (columns df_deduplicated) clock O
              (rows df_deduplicated) in
          let file_name := "processed_leads_" +:+ stamp +:+ ".json" in
          if write_ok then
            (ret {| leads_processed := length processed_leads;
                    duplicates_removed := duplicates_removed;
                    processed_file := "data/" +:+ file_name |},
             write_file file_name (JsonLeads processed_leads) dir)
          else (raise OSError, dir)
      end
  end.

End WithConfig.
End Upload.

(** ** services/scheduler.py: [run_manual_processing] *)

Inductive ManualOutcome : Type :=
  | OneResult (result : DeliveryResult)
  | AllResults (results : list DeliveryResult).

Module ManualRun.
Section WithConfig.

Variable window_days : Z.

(** [next((c for c in clients if c['id'] == client_id), None)] *)
Fixpoint find_client (client_id : Z) (clients : list Client.t)
    : option Client.t :=
  match clients with
  | [] => None
  | c :: rest =>
      if Client.id c =? client_id then Some c else find_client client_id rest
  end.

(** The loop of the branch without a client id: the results of the
    deliveries that returned, in order, and the state of the
    deduplication service.  The whole run reads one environment, hence
    one clock. *)
Fixpoint process_all (env : Env) (clients : list Client.t) (s : DedupState)
    (dir : Directory) : list DeliveryResult * DedupState :=
  match clients with
  | [] => ([], s)
  | client :: rest =>
      if Client.active client && (0 <? Client.remaining_quota client) then
        match LeadProcessor.process_client_delivery window_days env client
                s dir with
        | (inr result, s') =>
            let '(results, s'') := process_all env rest s' dir in
            (result :: results, s'')
        | (inl _, s') => process_all env rest s' dir
        end
      else process_all env rest s dir
  end.

(** [run_manual_processing(client_id=None)].  [if client_id:] is false
    for [None] and for [0].  Nothing is written back to
    [data/clients.json]. *)
Definition run_manual_processing (env : Env) (client_id : option Z)
    (clients_json : option (list Client.t)) (s : DedupState) (dir : Directory)
    : Exc ManualOutcome * DedupState :=
  match clients_json with
  | None => (raise OSError, s)
  | Some clients =>
      match client_id with
      | Some cid =>
          if cid =? 0 then
            let '(results, s') := process_all env clients s dir in
            (ret (AllResults results), s')
          else
            match find_client cid clients with
            | None =>
                (raise (ValueError ("Client " +:+ pretty cid +:+ " not found")),
                 s)
            | Some client =>
                match LeadProcessor.process_client_delivery window_days env
                        client s dir with
                | (inr result, s') => (ret (OneResult result), s')
                | (inl e, s') => (raise e, s')
                end
            end
      | None =>
          let '(results, s') := process_all env clients s dir in
          (ret (AllResults results), s')
      end
  end.

End WithConfig.
End ManualRun.

(** ** database.py: the [leads] table of DatabaseManager

    Of the columns only [lead_id] (unique), [email], [created_at] and
    [delivered_at] are read by the queries below; the text columns are
    carried along as one payload.  The functions give the effect of a
    statement that runs; a lost connection raises before anything is
    written. *)

Module LeadsTable.

Record Row := {
  lead_id : string;
  email : string;
  payload : string;
  created_at : datetime;
  delivered_at : option datetime
}.





(** [mark_leads_delivered(lead_ids, delivered_at=None)]:
    [UPDATE leads SET delivered_at = %s WHERE lead_id = ANY(%s)], with
    [datetime.now()] when no time is given. *)
Definition mark_leads_delivered (now : datetime) (lead_ids : list string)
    (delivered_at' : option datetime) (tbl : list Row) : list Row :=
  let t := match delivered_at' with Some t => t | None => now end in
  map (fun r =>
         if bool_decide (lead_id r ∈ lead_ids) then
           {| lead_id := lead_id r; email := email r; payload := payload r;
              created_at := created_at r; delivered_at := Some t |}
         else r) tbl.

(** [ORDER BY created_at ASC].  Rows of equal [created_at] come in an
    order the database chooses; here they keep their table order. *)
Fixpoint insert_sorted (r : Row) (l : list Row) : list Row :=
  match l with
  | [] => [r]
  | x :: l' =>
      if created_at x <? created_at r then x :: insert_sorted r l'
      else r :: l
  end.

Definition order_by_created_at (l : list Row) : list Row :=
  foldr insert_sorted [] l.

(** [get_available_leads(exclude_delivered=True)] *)
Definition get_available_leads (exclude_delivered : bool) (tbl : list Row)
    : list Row :=
  if exclude_delivered then
    order_by_created_at
      (List.filter (fun r => negb (bool_decide (is_Some (delivered_at r)))) tbl)
  else order_by_created_at tbl.

End LeadsTable.

(** ** Notions used in the statements *)

(** The test the filter loop of [_get_available_leads] applies to one
    e-mail: [inr true] when the lead is kept. *)
Definition eligible (window_days : Z) (s : DedupState) (now : datetime)
    (client : Client.t) (email' : string) : Exc bool :=
  delivered <- DeduplicationService.is_lead_delivered window_days s now email' ;;
  ret (negb delivered &&
       (negb (Client.exclusive client) ||
        negb (DeduplicationService.is_lead_exclusive_delivered s email'))).

Definition eligibleb (window_days : Z) (s : DedupState) (now : datetime)
    (client : Client.t) (lead : LeadData) : bool :=
  match eligible window_days s now client (email lead) with
  | inr true => true
  | _ => false
  end.

(** Number of leads a request handed over: [leads_delivered] of a
    successful response, nothing otherwise. *)
Definition delivered_size (r : Response) : Z :=
  match r with
  | Success data => leads_delivered data
  | _ => 0
  end.

Definition sum_delivered (rs : list Response) : Z :=
  foldr (fun r acc => delivered_size r + acc) 0 rs.

(** Oldest first by ingestion timestamp. *)
Definition oldest_first (l : list LeadData) : Prop :=
  StronglySorted (fun a b => processed_at a <= processed_at b) l.

(** ** Concrete data for the examples *)

Module Scenario.

Definition day : Z := 86400000000.

Definition lead (who : string) (t : datetime) : LeadData :=
  {| first_name := who; last_name := "Doe"; company := "X Corp";
     title := "CTO"; email := who +:+ "@x.com"; linkedin := "";
     processed_at := t |}.

Definition lead_a : LeadData := lead "a" 1.
Definition lead_b : LeadData := lead "b" 2.
Definition lead_c : LeadData := lead "c" 3.

(** A [data] directory with one file of processed leads next to the
    deduplication file. *)
Definition pool (leads : list LeadData) : Directory :=
  [("delivered_leads.json", NotJson);
   ("processed_leads_20240101_090000.json", JsonLeads leads)].

Definition client (id' : Z) (name' plan' : string) (exclusive' : bool)
    (lead_count' remaining_quota' : Z) : Client.t :=
  {| Client.id := id'; Client.name := name'; Client.plan := plan';
     Client.exclusive := exclusive'; Client.lead_count := lead_count';
     Client.email := name' +:+ "@client.example";
     Client.remaining_quota := remaining_quota'; Client.active := true |}.

(** An exclusive and a shared client. *)
Definition client_E : Client.t := client 1 "E" "premium" true 50 50.
Definition client_F : Client.t := client 2 "F" "basic" false 50 50.

(** A run at time [t] in which nothing outside fails. *)
Definition env_at (t : datetime) : Env :=
  {| now := t; lead_raises := fun _ => false; export_ok := true;
     db_read_ok := true; db_write_ok := true; clients_write_ok := true |}.

Definition world (s : DedupState) (leads : list LeadData) (c : Client.t)
    : World :=
  {| dedup := s; data_dir := pool leads;
     clients := {[ Client.id c := c ]} |}.

(** [n] leads with pairwise different e-mails, ingested at times
    [0 .. n-1]. *)
Definition many_leads (n : nat) : list LeadData :=
  map (fun i => lead (String (Ascii.ascii_of_nat i) "") (Z.of_nat i))
    (seq 0 n).

End Scenario.

(** ** Notions used in the statements about the remaining code *)

(** Every date of the dictionary parses. *)
Definition dates_parse (d : gmap string IsoString) : Prop :=
  forall k v, d !! k = Some v -> exists t, v = Iso t.

(** The e-mail of a row of a frame whose e-mail column is the [i]-th. *)
Definition emails_at (i : nat) (rows' : list (list string)) : list string :=
  map (cell i) rows'.

(** The e-mails a delivery handed over. *)
Definition delivered_emails (r : DeliveryResult) : list string :=
  map Lead.email (csv_rows r).

(** No e-mail of one list occurs in a later list. *)
Fixpoint never_twice (batches : list (list string)) : Prop :=
  match batches with
  | [] => True
  | b :: rest =>
      (forall e, e ∈ b -> Forall (fun b' => e ∉ b') rest) /\ never_twice rest
  end.

(** What the daily job may do to one entry of [data/clients.json]:
    only the quota changes, a skipped client is left as it is, and for
    a client with non-negative quota and [lead_count] the quota does not
    grow and stays non-negative. *)
Definition quota_lowered (c c' : Client.t) : Prop :=
  c' = Client.set_remaining_quota (Client.remaining_quota c') c /\
  (Client.active c = false \/ Client.remaining_quota c <= 0 -> c' = c) /\
  (0 <= Client.remaining_quota c -> 0 <= Client.lead_count c ->
   0 <= Client.remaining_quota c' <= Client.remaining_quota c).

(** The key of the unique constraint of [delivered_leads]. *)
Definition delivered_key (r : DatabaseManager.DeliveredLeadRow)
    : string * string :=
  (DatabaseManager.email r, DatabaseManager.fingerprint r).

(** Ascending [created_at]. *)
Definition by_created_at (l : list LeadsTable.Row) : Prop :=
  StronglySorted
    (fun a b => LeadsTable.created_at a <= LeadsTable.created_at b) l.

(** * Properties *)

Import DeduplicationService LeadProcessor.

(** ** The exception monad and the list helpers *)

Lemma exc_bind_inr {A B : Type} (m : Exc A) (k : A -> Exc B) (b : B) :
  exc_bind m k = inr b -> exists a, m = inr a /\ k a = inr b.
Proof. destruct m as [e|a]; simpl; [discriminate | eauto]. Qed.

Lemma raises_bind_l {A B : Type} (m : Exc A) (k : A -> Exc B) :
  raises m -> raises (exc_bind m k).
Proof. intros [e ->]. by exists e. Qed.

Lemma try_except_raises {A : Type} (m : Exc A) (dflt : A) :
  raises m -> try_except m dflt = dflt.
Proof. by intros [e ->]. Qed.

(** A loop raises as soon as one of its items makes the body raise
    whatever the accumulator. *)
Lemma exc_fold_raises {A S : Type} (f : S -> A -> Exc S) (l : list A) (a : A) :
  a ∈ l -> (forall s, raises (f s a)) -> forall s, raises (exc_fold f l s).
Proof.
  intros Hin Hf. induction l as [|b l IH]; intros s.
  - by apply not_elem_of_nil in Hin.
  - simpl. apply elem_of_cons in Hin as [<-|Hin].
    + by apply raises_bind_l.
    + destruct (f s b) as [e|s']; simpl; [by exists e | by apply IH].
Qed.

Lemma slice_to_sublist {A : Type} (m : Z) (l : list A) :
  sublist (slice_to m l) l.
Proof. unfold slice_to. case_match; apply sublist_take. Qed.

Lemma slice_to_length_le {A : Type} (m : Z) (l : list A) :
  0 <= m -> Z.of_nat (length (slice_to m l)) <= m.
Proof.
  intros Hm. unfold slice_to.
  destruct (Z.leb_spec 0 m); [|lia]. rewrite length_take. lia.
Qed.

Lemma slice_to_all {A : Type} (m : Z) (l : list A) :
  Z.of_nat (length l) <= m -> slice_to m l = l.
Proof.
  intros Hm. unfold slice_to.
  destruct (Z.leb_spec 0 m); [|lia]. apply take_ge. lia.
Qed.

(** ** DeduplicationService *)

Lemma mark_leads_exclusive_leads now emails s :
  exclusive_leads (mark_leads_as_delivered now emails false s)
  = exclusive_leads s.
Proof.
  unfold mark_leads_as_delivered. revert s.
  induction emails as [|e emails IH]; intros s; simpl; [done|].
  by rewrite IH.
Qed.

Lemma mark_leads_delivered_lookup now emails x s e :
  delivered_leads (mark_leads_as_delivered now emails x s) !! e
  = if bool_decide (e ∈ emails) then Some (Iso now)
    else delivered_leads s !! e.
Proof.
  unfold mark_leads_as_delivered, isoformat. revert s.
  induction emails as [|e' emails IH]; intros s; simpl; [done|].
  rewrite IH. destruct (decide (e ∈ emails)) as [Hin|Hnin].
  - rewrite !bool_decide_eq_true_2; [done | by right | done].
  - rewrite (bool_decide_eq_false_2 _ Hnin).
    destruct (decide (e = e')) as [->|Hne].
    + rewrite bool_decide_eq_true_2; [|by left].
      unfold mark_one. destruct x; simpl; by rewrite lookup_insert_eq.
    + rewrite bool_decide_eq_false_2.
      * unfold mark_one. destruct x; simpl; by rewrite lookup_insert_ne.
      * intros [?|?]%elem_of_cons; done.
Qed.

Lemma mark_leads_exclusive_lookup now emails s e :
  exclusive_leads (mark_leads_as_delivered now emails true s) !! e
  = if bool_decide (e ∈ emails) then Some (Iso now)
    else exclusive_leads s !! e.
Proof.
  unfold mark_leads_as_delivered, isoformat. revert s.
  induction emails as [|e' emails IH]; intros s; simpl; [done|].
  rewrite IH. destruct (decide (e ∈ emails)) as [Hin|Hnin].
  - rewrite !bool_decide_eq_true_2; [done | by right | done].
  - rewrite (bool_decide_eq_false_2 _ Hnin).
    destruct (decide (e = e')) as [->|Hne].
    + rewrite bool_decide_eq_true_2; [|by left].
      simpl. by rewrite lookup_insert_eq.
    + rewrite bool_decide_eq_false_2.
      * simpl. by rewrite lookup_insert_ne.
      * intros [?|?]%elem_of_cons; done.
Qed.

Lemma dedup_state_eq (s1 s2 : DedupState) :
  delivered_leads s1 = delivered_leads s2 ->
  exclusive_leads s1 = exclusive_leads s2 -> s1 = s2.
Proof. destruct s1, s2; simpl; by intros -> ->. Qed.

Lemma is_lead_delivered_marked window s now T e :
  delivered_leads s !! e = Some (Iso T) ->
  is_lead_delivered window s now e
  = inr (now - timedelta_days window <? T).
Proof. unfold is_lead_delivered. by intros ->. Qed.

Lemma mark_leads_as_delivered_twice now emails x s :
  let s1 := mark_leads_as_delivered now emails x s in
  mark_leads_as_delivered now emails x s1 = s1.
Proof.
  intros s1. subst s1. apply dedup_state_eq.
  - apply map_eq. intros e. rewrite !mark_leads_delivered_lookup.
    by case_bool_decide.
  - destruct x.
    + apply map_eq. intros e. rewrite !mark_leads_exclusive_lookup.
      by case_bool_decide.
    + by rewrite !mark_leads_exclusive_leads.
Qed.

(** ** DatabaseManager *)

Lemma mark_lead_delivered_total now e f x tbl :
  exists tbl1,
    DatabaseManager.mark_lead_delivered now e f x tbl = inr tbl1 /\
    existsb (DatabaseManager.same_key e f) tbl1 = true.
Proof.
  unfold DatabaseManager.mark_lead_delivered, DatabaseManager.insert_row.
  simpl.
  destruct (existsb (DatabaseManager.same_key e f) tbl) eqn:Hk.
  - by exists tbl.
  - eexists. split; [reflexivity|].
    rewrite existsb_app. simpl. unfold DatabaseManager.same_key at 2. simpl.
    rewrite !String.eqb_refl. by rewrite orb_true_r.
Qed.

(** C7.  Recording is idempotent.  On a [delivered_leads] table that
    already holds a row for (email, fingerprint), [mark_lead_delivered]
    returns normally and leaves the table exactly as it was, whatever
    the flag and the time of the second call.  The dictionary-based
    [mark_leads_as_delivered], run a second time with the same e-mails,
    flag and timestamp, also returns the state it was given. *)
Theorem record_idempotent now e f x tbl :
  existsb (DatabaseManager.same_key e f) tbl = true ->
  DatabaseManager.mark_lead_delivered now e f x tbl = inr tbl /\
  (forall emails s,
     mark_leads_as_delivered now emails x
       (mark_leads_as_delivered now emails x s)
     = mark_leads_as_delivered now emails x s).
Proof.
  intros Hk. split.
  - unfold DatabaseManager.mark_lead_delivered, DatabaseManager.insert_row.
    simpl. by rewrite Hk.
  - intros emails s. apply mark_leads_as_delivered_twice.
Qed.

Lemma record_idempotent_witness :
  let row := {| DatabaseManager.email := "a@x.com";
                DatabaseManager.fingerprint := "f1";
                DatabaseManager.exclusive := false;
                DatabaseManager.delivered_at := 7 |} in
  DatabaseManager.mark_lead_delivered 9 "a@x.com" "f1" false [row]
    = inr [row] /\
  (forall emails s,
     mark_leads_as_delivered 9 emails false
       (mark_leads_as_delivered 9 emails false s)
     = mark_leads_as_delivered 9 emails false s).
Proof.
  intros row. apply (record_idempotent 9 "a@x.com" "f1" false [row]).
  reflexivity.
Defined.

(** Two calls in a row: the second changes nothing and neither
    raises. *)
Lemma mark_lead_delivered_twice now now' e f x x' tbl :
  exists tbl1,
    DatabaseManager.mark_lead_delivered now e f x tbl = inr tbl1 /\
    DatabaseManager.mark_lead_delivered now' e f x' tbl1 = inr tbl1.
Proof.
  destruct (mark_lead_delivered_total now e f x tbl) as (tbl1 & H1 & Hk).
  exists tbl1. split; [done|].
  unfold DatabaseManager.mark_lead_delivered, DatabaseManager.insert_row.
  simpl. by rewrite Hk.
Qed.

(** ** The redelivery window *)

Lemma eligible_not_exclusive window s now c e :
  is_lead_exclusive_delivered s e = false ->
  eligible window s now c e
  = (delivered <- is_lead_delivered window s now e ;; ret (negb delivered)).
Proof.
  intros Hx. unfold eligible. rewrite Hx.
  destruct (is_lead_delivered window s now e) as [err|b]; simpl; [done|].
  by rewrite orb_true_r, andb_true_r.
Qed.

(** C8.  A lead with no entry in the exclusive index is marked
    delivered at time [T].  At every query time strictly before
    [T + window_days] the check [is_lead_delivered] answers true and the
    filter of [_get_available_leads] rejects the lead for every client;
    at every query time after [T + window_days] the check answers false
    and the filter keeps the lead for every client. *)
Theorem redelivery_window window s T emails e c :
  e ∈ emails ->
  is_lead_exclusive_delivered s e = false ->
  let s' := mark_leads_as_delivered T emails false s in
  (forall now, now < T + timedelta_days window ->
     is_lead_delivered window s' now e = inr true /\
     eligible window s' now c e = inr false) /\
  (forall now, T + timedelta_days window < now ->
     is_lead_delivered window s' now e = inr false /\
     eligible window s' now c e = inr true).
Proof.
  intros Hin Hx s'.
  assert (Hd : delivered_leads s' !! e = Some (Iso T)).
  { subst s'. rewrite mark_leads_delivered_lookup.
    by rewrite bool_decide_eq_true_2. }
  assert (Hx' : is_lead_exclusive_delivered s' e = false).
  { unfold is_lead_exclusive_delivered in *. subst s'.
    by rewrite mark_leads_exclusive_leads. }
  split; intros now Hnow.
  - assert (Hlt : (now - timedelta_days window <? T) = true)
      by (apply Z.ltb_lt; lia).
    rewrite (eligible_not_exclusive _ _ _ _ _ Hx').
    rewrite (is_lead_delivered_marked _ _ _ _ _ Hd), Hlt. done.
  - assert (Hlt : (now - timedelta_days window <? T) = false)
      by (apply Z.ltb_ge; lia).
    rewrite (eligible_not_exclusive _ _ _ _ _ Hx').
    rewrite (is_lead_delivered_marked _ _ _ _ _ Hd), Hlt. done.
Qed.

(** ** The filter of [_get_available_leads] *)

Lemma filter_step_eligible window s now c acc lead :
  filter_step window s now c acc lead
  = (b <- eligible window s now c (email lead) ;;
     ret (if b then (acc ++ [lead])%list else acc)).
Proof.
  unfold filter_step, eligible.
  destruct (is_lead_delivered window s now (email lead)) as [err|[|]];
    simpl; [done..|].
  destruct (Client.exclusive c),
    (is_lead_exclusive_delivered s (email lead)); done.
Qed.

Lemma filter_loop_inr window s now c all acc res :
  exc_fold (filter_step window s now c) all acc = inr res ->
  res = (acc ++ filter (fun l => eligibleb window s now c l) all)%list.
Proof.
  revert acc. induction all as [|lead all IH]; intros acc; simpl.
  - intros [= <-]. by rewrite app_nil_r.
  - rewrite filter_step_eligible. intros H.
    apply exc_bind_inr in H as (acc' & Hstep & Hrest).
    apply exc_bind_inr in Hstep as (b & Hb & Hacc). injection Hacc as <-.
    assert (Heb : eligibleb window s now c lead = b)
      by (unfold eligibleb; rewrite Hb; by destruct b).
    rewrite (IH _ Hrest). destruct b.
    + rewrite filter_cons_True by (by rewrite Heb). by rewrite <- app_assoc.
    + rewrite filter_cons_False by (rewrite Heb; simpl; tauto). done.
Qed.

Lemma filter_loop_no_raise window s now c all acc :
  Forall (fun l => ~ raises (eligible window s now c (email l))) all ->
  exc_fold (filter_step window s now c) all acc
  = inr (acc ++ filter (fun l => eligibleb window s now c l) all)%list.
Proof.
  intros Hall. revert acc.
  induction Hall as [|lead all Hlead _ IH]; intros acc; simpl.
  - by rewrite app_nil_r.
  - rewrite filter_step_eligible.
    destruct (eligible window s now c (email lead)) as [err|b] eqn:Hb; simpl.
    + exfalso. apply Hlead. by exists err.
    + assert (Heb : eligibleb window s now c lead = b)
        by (unfold eligibleb; rewrite Hb; by destruct b).
      rewrite IH. destruct b.
      * rewrite filter_cons_True by (by rewrite Heb). by rewrite <- app_assoc.
      * rewrite filter_cons_False by (rewrite Heb; simpl; tauto). done.
Qed.

Lemma get_available_leads_body_inr window s now dir c res :
  get_available_leads_body window s now dir c = inr res ->
  exists all, load_processed_leads dir = inr all /\
              res = filter (fun l => eligibleb window s now c l) all.
Proof.
  unfold get_available_leads_body. intros H.
  apply exc_bind_inr in H as (all & Hload & H).
  apply exc_bind_inr in H as (avail & Hloop & H). injection H as <-.
  exists all. split; [done|]. by apply filter_loop_inr in Hloop.
Qed.

Lemma get_available_leads_sublist window s now dir c all :
  load_processed_leads dir = inr all ->
  sublist (_get_available_leads window s now dir c) all.
Proof.
  intros Hload. unfold _get_available_leads.
  destruct (get_available_leads_body window s now dir c) as [err|res] eqn:Hb;
    simpl; [apply sublist_nil_l|].
  apply get_available_leads_body_inr in Hb as (all' & Hload' & ->).
  rewrite Hload in Hload'. injection Hload' as <-. apply sublist_filter.
Qed.

Lemma get_available_leads_elem window s now dir c lead :
  lead ∈ _get_available_leads window s now dir c ->
  eligible window s now c (email lead) = inr true /\
  exists all, load_processed_leads dir = inr all /\ lead ∈ all.
Proof.
  unfold _get_available_leads.
  destruct (get_available_leads_body window s now dir c) as [err|res] eqn:Hb;
    simpl; [by intros ?%not_elem_of_nil|].
  apply get_available_leads_body_inr in Hb as (all & Hload & ->).
  intros [He Hin]%list_elem_of_filter. split; [|by eauto].
  unfold eligibleb in He.
  by destruct (eligible window s now c (email lead)) as [?|[|]].
Qed.

Lemma get_available_leads_no_raise window s now dir c all :
  load_processed_leads dir = inr all ->
  Forall (fun l => ~ raises (eligible window s now c (email l))) all ->
  _get_available_leads window s now dir c
  = filter (fun l => eligibleb window s now c l) all.
Proof.
  intros Hload Hall. unfold _get_available_leads, get_available_leads_body.
  rewrite Hload. simpl. by rewrite (filter_loop_no_raise _ _ _ _ _ _ Hall).
Qed.

(** ** [process_client_delivery] *)

Lemma personalize_elem env c i leads L :
  L ∈ personalize env c i leads ->
  Lead.source L ∈ leads /\ Lead.email L = email (Lead.source L) /\
  Lead.exclusive L = Client.exclusive c /\
  lead_raises env (Lead.source L) = false.
Proof.
  revert i. induction leads as [|lead leads IH]; intros i; simpl.
  - by intros ?%not_elem_of_nil.
  - destruct (lead_raises env lead) eqn:Hr.
    + intros H. destruct (IH _ H) as (? & ? & ? & ?).
      repeat split; [by right | done..].
    + intros [->|H]%elem_of_cons; simpl.
      * repeat split; [by left | done].
      * destruct (IH _ H) as (? & ? & ? & ?).
        repeat split; [by right | done..].
Qed.

Lemma personalize_length env c i leads :
  (length (personalize env c i leads) <= length leads)%nat.
Proof.
  revert i. induction leads as [|lead leads IH]; intros i; simpl; [lia|].
  destruct (lead_raises env lead); simpl; specialize (IH (S i)); lia.
Qed.

Lemma personalize_no_raise env c i leads :
  Forall (fun l => lead_raises env l = false) leads ->
  map Lead.source (personalize env c i leads) = leads.
Proof.
  intros Hall. revert i.
  induction Hall as [|lead leads Hlead _ IH]; intros i; simpl; [done|].
  rewrite Hlead. simpl. by rewrite IH.
Qed.

(** What a normal return of [process_client_delivery] tells. *)
Lemma process_client_delivery_inr window env c s dir res s' :
  process_client_delivery window env c s dir = (inr res, s') ->
  export_ok env = true /\
  csv_rows res
  = personalize env c O
      (slice_to (max_leads c)
         (_get_available_leads window s (now env) dir c)) /\
  csv_rows res <> [] /\
  leads_delivered res = Z.of_nat (length (csv_rows res)) /\
  s' = mark_leads_as_delivered (now env) (map Lead.email (csv_rows res))
         false s.
Proof.
  unfold process_client_delivery.
  destruct (_get_available_leads window s (now env) dir c) as [|a avail];
    [discriminate|].
  destruct (personalize env c O _) as [|L Ls] eqn:Hp; [discriminate|].
  destruct (export_ok env); [|discriminate].
  intros [= <- <-]. simpl. done.
Qed.

(** A raising run of [process_client_delivery] has written nothing. *)
Lemma process_client_delivery_inl window env c s dir err s' :
  process_client_delivery window env c s dir = (inl err, s') -> s' = s.
Proof.
  unfold process_client_delivery.
  destruct (_get_available_leads window s (now env) dir c) as [|a avail];
    [by intros [= _ <-]|].
  destruct (personalize env c O _) as [|L Ls]; [by intros [= _ <-]|].
  destruct (export_ok env); [discriminate | by intros [= _ <-]].
Qed.

Lemma delivered_from_available window env c s dir res s' L :
  process_client_delivery window env c s dir = (inr res, s') ->
  L ∈ csv_rows res ->
  Lead.source L ∈ _get_available_leads window s (now env) dir c /\
  Lead.email L = email (Lead.source L).
Proof.
  intros H HL. apply process_client_delivery_inr in H as (_ & Hrows & _).
  rewrite Hrows in HL. apply personalize_elem in HL as (Hsrc & Hem & _).
  split; [|done].
  eapply sublist_subseteq; [apply slice_to_sublist | exact Hsrc].
Qed.

Lemma process_client_delivery_exclusive_leads window env c s dir :
  exclusive_leads (process_client_delivery window env c s dir).2
  = exclusive_leads s.
Proof.
  destruct (process_client_delivery window env c s dir) as [[err|res] s'] eqn:H;
    simpl.
  - by apply process_client_delivery_inl in H as ->.
  - apply process_client_delivery_inr in H as (_ & _ & _ & _ & ->).
    apply mark_leads_exclusive_leads.
Qed.

(** ** Exclusivity *)

(** C1 as stated fails here.  An exclusive delivery of a@x.com is on
    record from day 0 (both indexes).  On day 31 the shared client F
    asks for leads from a pool holding only a@x.com and receives it. *)
Lemma exclusive_lead_resold_after_window :
  let s0 := mark_leads_as_delivered 0 ["a@x.com"] true empty_dedup in
  let run :=
    process_client_delivery 30 (Scenario.env_at (31 * Scenario.day))
      Scenario.client_F s0 (Scenario.pool [Scenario.lead_a]) in
  is_lead_exclusive_delivered s0 "a@x.com" = true /\
  Client.exclusive Scenario.client_F = false /\
  _get_available_leads 30 s0 (31 * Scenario.day)
    (Scenario.pool [Scenario.lead_a]) Scenario.client_F = [Scenario.lead_a] /\
  (exists res, run.1 = inr res /\
     map Lead.email (csv_rows res) = ["a@x.com"]).
Proof.
  repeat split; try (vm_compute; reflexivity).
  eexists. split; vm_compute; reflexivity.
Qed.

(** A client whose exclusive flag is not set is never checked against
    the exclusive index: only [is_lead_delivered] decides. *)
Lemma shared_client_ignores_exclusive_index window s now c e :
  Client.exclusive c = false ->
  eligible window s now c e
  = (delivered <- is_lead_delivered window s now e ;; ret (negb delivered)).
Proof.
  intros Hc. unfold eligible. rewrite Hc.
  destruct (is_lead_delivered window s now e) as [?|b]; simpl; [done|].
  by rewrite andb_true_r.
Qed.

(** Hence a shared client is offered every loaded lead whose delivered
    entry is absent or out of the window, exclusive entry or not. *)
Lemma shared_client_candidates window s now dir c all lead :
  Client.exclusive c = false ->
  load_processed_leads dir = inr all ->
  Forall (fun l => ~ raises (is_lead_delivered window s now (email l))) all ->
  lead ∈ all ->
  is_lead_delivered window s now (email lead) = inr false ->
  lead ∈ _get_available_leads window s now dir c.
Proof.
  intros Hc Hload Hall Hin Hd.
  rewrite (get_available_leads_no_raise window s now dir c all Hload).
  - apply list_elem_of_filter. split; [|done]. unfold eligibleb.
    by rewrite shared_client_ignores_exclusive_index, Hd.
  - eapply Forall_impl; [exact Hall|]. intros l Hl [e He]. apply Hl.
    rewrite shared_client_ignores_exclusive_index in He by done.
    destruct (is_lead_delivered window s now (email l)) as [e'|b];
      [by exists e' | discriminate].
Qed.

(** C1 (amended).  For a lead whose e-mail is in the exclusive index
    and a client whose exclusive flag is set, the lead is never among
    the client's candidates nor in what [process_client_delivery] hands
    over, whatever the time of the request. *)
Theorem exclusive_index_blocks_exclusive_clients window env c s dir e :
  is_lead_exclusive_delivered s e = true ->
  Client.exclusive c = true ->
  (forall lead, lead ∈ _get_available_leads window s (now env) dir c ->
     email lead <> e) /\
  (forall res s' L,
     process_client_delivery window env c s dir = (inr res, s') ->
     L ∈ csv_rows res -> Lead.email L <> e).
Proof.
  intros Hx Hc.
  assert (Hav : forall lead,
    lead ∈ _get_available_leads window s (now env) dir c -> email lead <> e).
  { intros lead [Hel _]%get_available_leads_elem Heq. subst e.
    unfold eligible in Hel. rewrite Hx, Hc in Hel.
    destruct (is_lead_delivered window s (now env) (email lead)) as [?|[|]];
      simpl in Hel; discriminate. }
  split; [done|]. intros res s' L Hrun HL.
  destruct (delivered_from_available _ _ _ _ _ _ _ _ Hrun HL) as [Hsrc ->].
  by apply Hav.
Qed.

Lemma exclusive_index_blocks_exclusive_clients_witness :
  let s0 := mark_leads_as_delivered 0 ["a@x.com"] true empty_dedup in
  let env := Scenario.env_at (400 * Scenario.day) in
  let dir := Scenario.pool [Scenario.lead_a] in
  (forall lead,
     lead ∈ _get_available_leads 30 s0 (now env) dir Scenario.client_E ->
     email lead <> "a@x.com") /\
  (forall res s' L,
     process_client_delivery 30 env Scenario.client_E s0 dir = (inr res, s') ->
     L ∈ csv_rows res -> Lead.email L <> "a@x.com").
Proof.
  intros s0 env dir.
  apply (exclusive_index_blocks_exclusive_clients 30 env Scenario.client_E
           s0 dir "a@x.com"); vm_compute; reflexivity.
Defined.

Lemma redelivery_window_witness :
  let s' := mark_leads_as_delivered 0 ["b@x.com"] false empty_dedup in
  (is_lead_delivered 30 s' (29 * Scenario.day) "b@x.com" = inr true /\
   eligible 30 s' (29 * Scenario.day) Scenario.client_E "b@x.com"
     = inr false) /\
  (is_lead_delivered 30 s' (31 * Scenario.day) "b@x.com" = inr false /\
   eligible 30 s' (31 * Scenario.day) Scenario.client_E "b@x.com"
     = inr true).
Proof.
  intros s'.
  destruct (redelivery_window 30 empty_dedup 0 ["b@x.com"] "b@x.com"
              Scenario.client_E) as [Hbefore Hafter].
  - apply list_elem_of_singleton. reflexivity.
  - reflexivity.
  - split; [apply Hbefore | apply Hafter]; vm_compute; reflexivity.
Defined.

(** At the boundary [T + window_days] itself the lead is already
    eligible again. *)
Lemma redelivery_window_boundary window s T emails e c :
  e ∈ emails ->
  is_lead_exclusive_delivered s e = false ->
  eligible window (mark_leads_as_delivered T emails false s)
    (T + timedelta_days window) c e = inr true.
Proof.
  intros Hin Hx.
  rewrite eligible_not_exclusive.
  - rewrite (is_lead_delivered_marked _ _ _ T).
    + replace (T + timedelta_days window - timedelta_days window) with T by lia.
      by rewrite Z.ltb_irrefl.
    + rewrite mark_leads_delivered_lookup. by rewrite bool_decide_eq_true_2.
  - unfold is_lead_exclusive_delivered in *.
    by rewrite mark_leads_exclusive_leads.
Qed.

(** ** Order of the candidates *)

Lemma exc_fold_ext {A S : Type} (f g : S -> A -> Exc S) (l : list A) (s : S) :
  (forall s a, f s a = g s a) -> exc_fold f l s = exc_fold g l s.
Proof.
  intros Hfg. revert s. induction l as [|a l IH]; intros s; simpl; [done|].
  rewrite Hfg. destruct (g s a); simpl; [done | apply IH].
Qed.

Lemma StronglySorted_sublist {A : Type} (R : A -> A -> Prop) (l1 l2 : list A) :
  sublist l1 l2 -> StronglySorted R l2 -> StronglySorted R l1.
Proof.
  induction 1 as [|x l1 l2 Hsub IH|x l1 l2 Hsub IH]; intros Hs.
  - constructor.
  - apply StronglySorted_cons in Hs as [Hx Hs].
    apply StronglySorted_cons. split; [|by apply IH].
    rewrite Forall_forall in *. intros y Hy. apply Hx.
    by apply (sublist_subseteq _ _ Hsub).
  - apply StronglySorted_cons in Hs as [_ Hs]. by apply IH.
Qed.

(** C9 as stated fails here.  The directory lists the later upload
    first: the candidates come out newest first. *)
Lemma candidates_not_oldest_first :
  let dir : Directory :=
    [("processed_leads_20240102_090000.json", JsonLeads [Scenario.lead_b]);
     ("processed_leads_20240101_090000.json", JsonLeads [Scenario.lead_a])] in
  _get_available_leads 30 empty_dedup (10 * Scenario.day) dir Scenario.client_F
    = [Scenario.lead_b; Scenario.lead_a] /\
  ~ oldest_first [Scenario.lead_b; Scenario.lead_a].
Proof.
  split; [vm_compute; reflexivity|].
  intros [Hb _]%StronglySorted_cons.
  apply Forall_cons in Hb as [Hle _]. vm_compute in Hle. by apply Hle.
Qed.

(** C9 (amended).  The candidates are the loaded entries in load order
    (directory listing order, then order within each file) with the
    ineligible ones dropped: a sublist of what was loaded, oldest first
    whenever the loaded list is, and the same for two clients that
    differ only in plan (no plan-priority reordering). *)
Theorem candidates_keep_load_order window s now dir c all :
  load_processed_leads dir = inr all ->
  sublist (_get_available_leads window s now dir c) all /\
  (oldest_first all ->
   oldest_first (_get_available_leads window s now dir c)) /\
  (forall c', Client.exclusive c' = Client.exclusive c ->
     _get_available_leads window s now dir c'
     = _get_available_leads window s now dir c).
Proof.
  intros Hload.
  pose proof (get_available_leads_sublist window s now dir c all Hload) as Hsub.
  split; [done|]. split.
  - intros Hs. by eapply StronglySorted_sublist.
  - intros c' Hc. unfold _get_available_leads, get_available_leads_body.
    rewrite Hload. simpl.
    rewrite (exc_fold_ext (filter_step window s now c')
               (filter_step window s now c)); [done|].
    intros acc lead. unfold filter_step. by rewrite Hc.
Qed.

Lemma candidates_keep_load_order_witness :
  let dir := Scenario.pool [Scenario.lead_a; Scenario.lead_b; Scenario.lead_c] in
  let s := mark_leads_as_delivered 0 ["b@x.com"] false empty_dedup in
  let all := [Scenario.lead_a; Scenario.lead_b; Scenario.lead_c] in
  sublist (_get_available_leads 30 s Scenario.day dir Scenario.client_F) all /\
  (oldest_first all ->
   oldest_first (_get_available_leads 30 s Scenario.day dir Scenario.client_F)) /\
  (forall c', Client.exclusive c' = Client.exclusive Scenario.client_F ->
     _get_available_leads 30 s Scenario.day dir c'
     = _get_available_leads 30 s Scenario.day dir Scenario.client_F).
Proof.
  intros dir s all.
  apply (candidates_keep_load_order 30 s Scenario.day dir Scenario.client_F all).
  reflexivity.
Defined.

Lemma process_client_delivery_size window env c s dir res s' :
  process_client_delivery window env c s dir = (inr res, s') ->
  0 <= max_leads c ->
  1 <= leads_delivered res <= max_leads c.
Proof.
  intros H Hcap.
  apply process_client_delivery_inr in H as (_ & Hrows & Hne & -> & _).
  split.
  - destruct (csv_rows res); [done | simpl; lia].
  - rewrite Hrows.
    pose proof (personalize_length env c O
      (slice_to (max_leads c) (_get_available_leads window s (now env) dir c))).
    pose proof (slice_to_length_le (max_leads c)
      (_get_available_leads window s (now env) dir c) Hcap).
    lia.
Qed.

(** ** Nothing to deliver, under-filled batches and the batch cap *)

Lemma personalize_emails env c i leads :
  map Lead.email (personalize env c i leads)
  = map email (map Lead.source (personalize env c i leads)).
Proof.
  revert i. induction leads as [|lead leads IH]; intros i; simpl; [done|].
  destruct (lead_raises env lead); simpl; by rewrite IH.
Qed.

Lemma no_candidates_raises window env c s dir :
  _get_available_leads window s (now env) dir c = [] ->
  process_client_delivery window env c s dir
  = (inl (ValueError "No leads available for delivery"), s).
Proof. unfold process_client_delivery. by intros ->. Qed.

(** C6 as stated fails here.  The pool is empty: the delivery
    raises. *)
Lemma empty_pool_raises :
  process_client_delivery 30 (Scenario.env_at 0) Scenario.client_F
    empty_dedup (Scenario.pool [])
  = (inl (ValueError "No leads available for delivery"), empty_dedup).
Proof. vm_compute. reflexivity. Qed.

(** C6 (amended).  Nothing outside fails and the candidates do not
    exceed the cap.  With at least one candidate the delivery returns an
    ordinary result that carries every candidate, in order (an
    under-filled batch is not an error); with no candidate it raises
    [ValueError("No leads available for delivery")] and writes
    nothing. *)
Theorem underfilled_delivery window env c s dir :
  Forall (fun l => lead_raises env l = false)
    (_get_available_leads window s (now env) dir c) ->
  export_ok env = true ->
  Z.of_nat (length (_get_available_leads window s (now env) dir c))
    <= max_leads c ->
  process_client_delivery window env c s dir
  = match _get_available_leads window s (now env) dir c with
    | [] => (inl (ValueError "No leads available for delivery"), s)
    | avail =>
        (inr {| leads_delivered := Z.of_nat (length avail);
                csv_rows := personalize env c O avail |},
         mark_leads_as_delivered (now env) (map email avail) false s)
    end /\
  map Lead.source
    (personalize env c O (_get_available_leads window s (now env) dir c))
  = _get_available_leads window s (now env) dir c.
Proof.
  intros Hok Hexp Hlen.
  pose proof (personalize_no_raise env c O _ Hok) as Hsrc.
  split; [|done].
  unfold process_client_delivery.
  destruct (_get_available_leads window s (now env) dir c) as [|a avail] eqn:Hav;
    [done|].
  rewrite (slice_to_all _ _ Hlen).
  assert (Hlenp : length (personalize env c O (a :: avail))
                  = length (a :: avail)).
  { rewrite <- Hsrc at 2. by rewrite length_map. }
  assert (Hem : map Lead.email (personalize env c O (a :: avail))
                = map email (a :: avail)).
  { by rewrite personalize_emails, Hsrc. }
  destruct (personalize env c O (a :: avail)) as [|L Ls] eqn:Hp;
    [discriminate|].
  by rewrite Hexp, Hem, Hlenp.
Qed.

Lemma underfilled_delivery_witness :
  let s := empty_dedup in
  let dir := Scenario.pool [Scenario.lead_a; Scenario.lead_b] in
  let env := Scenario.env_at Scenario.day in
  let c := Scenario.client_F in
  process_client_delivery 30 env c s dir
  = match _get_available_leads 30 s (now env) dir c with
    | [] => (inl (ValueError "No leads available for delivery"), s)
    | avail =>
        (inr {| leads_delivered := Z.of_nat (length avail);
                csv_rows := personalize env c O avail |},
         mark_leads_as_delivered (now env) (map email avail) false s)
    end /\
  map Lead.source (personalize env c O (_get_available_leads 30 s (now env) dir c))
  = _get_available_leads 30 s (now env) dir c.
Proof.
  intros s dir env c.
  apply (underfilled_delivery 30 env c s dir).
  - vm_compute. repeat constructor.
  - reflexivity.
  - vm_compute. discriminate.
Defined.

(** C5 as stated fails here.  A basic client (plan limit 100) with
    [lead_count] and quota 200 receives 101 leads in one delivery; with
    quota 0 the delivery raises. *)
Lemma cap_ignores_plan_and_zero_cap_raises :
  let c200 := Scenario.client 3 "G" "basic" false 200 200 in
  let c0 := Scenario.client 4 "H" "basic" false 50 0 in
  (max_leads c200 = 200 /\
   Config.max_leads <$> Config.PLAN_CONFIGURATIONS (Client.plan c200)
     = Some 100 /\
   exists res,
     (process_client_delivery 30 (Scenario.env_at 0) c200 empty_dedup
        (Scenario.pool (Scenario.many_leads 101))).1 = inr res /\
     leads_delivered res = 101) /\
  (max_leads c0 = 0 /\
   process_client_delivery 30 (Scenario.env_at 0) c0 empty_dedup
     (Scenario.pool [Scenario.lead_a])
   = (inl (ValueError "No leads could be processed successfully"),
      empty_dedup)).
Proof.
  intros c200 c0. split; [|split; vm_compute; reflexivity].
  split; [reflexivity|]. split; [reflexivity|].
  eexists. split; vm_compute; reflexivity.
Qed.

(** C5 (amended).  The cap is [min(remaining_quota, lead_count)], the
    client's own [lead_count]; the plan table is not consulted.  With a
    non-negative cap a delivery that returns hands over at least one and
    at most cap leads, and with cap 0 the delivery raises a [ValueError]
    and writes nothing. *)
Theorem batch_cap window env c s dir :
  0 <= max_leads c ->
  max_leads c = Z.min (Client.remaining_quota c) (Client.lead_count c) /\
  (forall res s',
     process_client_delivery window env c s dir = (inr res, s') ->
     1 <= leads_delivered res <= max_leads c) /\
  (max_leads c = 0 ->
   exists msg,
     process_client_delivery window env c s dir = (inl (ValueError msg), s)).
Proof.
  intros Hcap. split; [done|]. split.
  - intros res s' H. by eapply process_client_delivery_size.
  - intros H0. unfold process_client_delivery. rewrite H0.
    destruct (_get_available_leads window s (now env) dir c); by eexists.
Qed.

Lemma batch_cap_witness :
  let c := Scenario.client 4 "H" "basic" false 50 0 in
  let env := Scenario.env_at 0 in
  let dir := Scenario.pool [Scenario.lead_a] in
  max_leads c = Z.min (Client.remaining_quota c) (Client.lead_count c) /\
  (forall res s',
     process_client_delivery 30 env c empty_dedup dir = (inr res, s') ->
     1 <= leads_delivered res <= max_leads c) /\
  (max_leads c = 0 ->
   exists msg,
     process_client_delivery 30 env c empty_dedup dir
     = (inl (ValueError msg), empty_dedup)).
Proof.
  intros c env dir. apply (batch_cap 30 env c empty_dedup dir).
  vm_compute. discriminate.
Defined.

(** ** Failure and the absence of rollback *)

(** C2 as stated fails here.  The quota update fails after
    [process_client_delivery] has returned: the request answers with an
    error, the quota is unchanged, and the deduplication entry written
    by the delivery stays, so that the lead is no longer a candidate. *)
Lemma failed_quota_update_keeps_dedup_entries :
  let w := Scenario.world empty_dedup [Scenario.lead_a] Scenario.client_F in
  let env :=
    {| now := Scenario.day; lead_raises := fun _ => false; export_ok := true;
       db_read_ok := true; db_write_ok := false; clients_write_ok := true |} in
  let '(r, w') := App.process_delivery 30 env 2 w in
  r = ServerError OperationalError /\
  Client.remaining_quota <$> clients w' !! 2 = Some 50 /\
  delivered_leads (dedup w) !! "a@x.com" = None /\
  delivered_leads (dedup w') !! "a@x.com" = Some (Iso Scenario.day) /\
  _get_available_leads 30 (dedup w) Scenario.day (data_dir w) Scenario.client_F
    = [Scenario.lead_a] /\
  _get_available_leads 30 (dedup w') Scenario.day (data_dir w') Scenario.client_F
    = [].
Proof. vm_compute. repeat split; reflexivity. Qed.

(** C2 (amended).  There is no rollback, and a raising run of
    [process_client_delivery] needs none: it has written no
    deduplication entry, and the request built on it leaves the whole
    state as it was (same candidates, same quota). *)
Theorem failed_delivery_writes_nothing window env cid w c err s' :
  clients w !! cid = Some c ->
  process_client_delivery window env c (dedup w) (data_dir w) = (inl err, s') ->
  s' = dedup w /\
  (App.process_delivery window env cid w).2 = w /\
  (db_read_ok env = true ->
   (App.process_delivery window env cid w).1 = ServerError err).
Proof.
  intros Hc Hrun.
  pose proof (process_client_delivery_inl _ _ _ _ _ _ _ Hrun) as ->.
  split; [done|]. unfold App.process_delivery.
  destruct (db_read_ok env); simpl; [|by split].
  rewrite Hc, Hrun. simpl. split; [by destruct w | done].
Qed.

Lemma failed_delivery_writes_nothing_witness :
  let w := Scenario.world empty_dedup [Scenario.lead_a] Scenario.client_F in
  let env :=
    {| now := Scenario.day; lead_raises := fun _ => false; export_ok := false;
       db_read_ok := true; db_write_ok := true; clients_write_ok := true |} in
  empty_dedup = dedup w /\
  (App.process_delivery 30 env 2 w).2 = w /\
  (db_read_ok env = true ->
   (App.process_delivery 30 env 2 w).1 = ServerError OSError).
Proof.
  intros w env.
  apply (failed_delivery_writes_nothing 30 env 2 w Scenario.client_F OSError
           empty_dedup); vm_compute; reflexivity.
Defined.

(** ** Quota *)

(** A successful request stores [max(0, remaining_quota - delivered)]. *)
Lemma process_delivery_success window env cid w c res w' :
  clients w !! cid = Some c ->
  App.process_delivery window env cid w = (Success res, w') ->
  clients w' !! cid
  = Some (Client.set_remaining_quota
            (Z.max 0 (Client.remaining_quota c - leads_delivered res)) c).
Proof.
  intros Hc. unfold App.process_delivery.
  destruct (db_read_ok env); simpl; [|discriminate]. rewrite Hc.
  destruct (process_client_delivery window env c (dedup w) (data_dir w))
    as [[err|res'] s'] eqn:Hrun; [discriminate|].
  destruct (db_write_ok env); [|discriminate].
  intros [= <- <-]. simpl. by rewrite lookup_insert_eq.
Qed.

(** C3 as stated fails here.  A client with quota 1 and [lead_count]
    -1: the slice [[:-1]] of three candidates has two leads, both are
    delivered, and the stored quota is clamped to 0. *)
Lemma overshoot_is_clamped :
  let c := Scenario.client 5 "K" "basic" false (-1) 1 in
  let w :=
    Scenario.world empty_dedup
      [Scenario.lead_a; Scenario.lead_b; Scenario.lead_c] c in
  let '(r, w') := App.process_delivery 30 (Scenario.env_at Scenario.day) 5 w in
  delivered_size r = 2 /\
  (exists res, r = Success res) /\
  Client.remaining_quota <$> clients w' !! 5 = Some 0 /\
  Client.remaining_quota c - delivered_size r = -1.
Proof.
  vm_compute. split; [done|]. split; [by eexists | by split].
Qed.

Lemma process_delivery_quota window env cid w c r w' :
  clients w !! cid = Some c ->
  0 <= Client.remaining_quota c ->
  0 <= Client.lead_count c ->
  App.process_delivery window env cid w = (r, w') ->
  exists c',
    clients w' !! cid = Some c' /\
    Client.lead_count c' = Client.lead_count c /\
    Client.remaining_quota c'
    = Client.remaining_quota c - delivered_size r /\
    0 <= Client.remaining_quota c'.
Proof.
  intros Hc Hq Hlc. unfold App.process_delivery.
  destruct (db_read_ok env); simpl;
    [|intros [= <- <-]; exists c; simpl; repeat split; [done|lia|done]].
  rewrite Hc.
  destruct (process_client_delivery window env c (dedup w) (data_dir w))
    as [[err|res] s'] eqn:Hrun.
  - intros [= <- <-]. exists c. simpl. repeat split; [done|lia|done].
  - assert (Hcap : 0 <= max_leads c) by (unfold max_leads; lia).
    pose proof (process_client_delivery_size _ _ _ _ _ _ _ Hrun Hcap) as Hle.
    unfold max_leads in Hle.
    destruct (db_write_ok env); intros [= <- <-]; simpl.
    + eexists. rewrite lookup_insert_eq. split; [done|]. simpl.
      repeat split; lia.
    + exists c. repeat split; [done|lia|done].
Qed.

(** C3 (amended).  For a client whose [remaining_quota] and
    [lead_count] are not negative, after any sequence of requests the
    stored quota is the initial quota minus the sizes of the successful
    deliveries, and it is not negative.  The update itself is
    [max(0, remaining_quota - delivered)]: nothing is rejected, and for
    such a client the clamp never takes effect. *)
Theorem quota_after_deliveries window envs cid w c rs w' :
  clients w !! cid = Some c ->
  0 <= Client.remaining_quota c ->
  0 <= Client.lead_count c ->
  App.run_deliveries window envs cid w = (rs, w') ->
  exists c',
    clients w' !! cid = Some c' /\
    Client.remaining_quota c' = Client.remaining_quota c - sum_delivered rs /\
    0 <= Client.remaining_quota c'.
Proof.
  revert w c rs w'. induction envs as [|env envs IH]; intros w c rs w' Hc Hq Hlc.
  - intros [= <- <-]. exists c. simpl. repeat split; [done|lia|done].
  - simpl.
    destruct (App.process_delivery window env cid w) as [r w1] eqn:Hstep.
    destruct (App.run_deliveries window envs cid w1) as [rs1 w2] eqn:Hrest.
    intros [= <- <-].
    destruct (process_delivery_quota _ _ _ _ _ _ _ Hc Hq Hlc Hstep)
      as (c1 & Hc1 & Hlc1 & Hq1 & Hpos1).
    destruct (IH w1 c1 rs1 w2 Hc1 Hpos1 ltac:(lia) Hrest)
      as (c2 & Hc2 & Hq2 & Hpos2).
    exists c2. simpl. repeat split; [done|lia|done].
Qed.

(** Spec scenario: three leads in the pool, quota 2, shared client,
    window of 30 days: two leads are delivered and the quota becomes 0;
    a second request then fails and changes nothing. *)
Lemma quota_after_deliveries_witness :
  let c := Scenario.client 6 "Q" "basic" false 2 2 in
  let w :=
    Scenario.world empty_dedup
      [Scenario.lead_a; Scenario.lead_b; Scenario.lead_c] c in
  let envs := [Scenario.env_at Scenario.day; Scenario.env_at (2 * Scenario.day)] in
  let out := App.run_deliveries 30 envs 6 w in
  sum_delivered out.1 = 2 /\
  exists c',
    clients out.2 !! 6 = Some c' /\
    Client.remaining_quota c' = Client.remaining_quota c - sum_delivered out.1 /\
    0 <= Client.remaining_quota c'.
Proof.
  intros c w envs out. split; [vm_compute; reflexivity|].
  apply (quota_after_deliveries 30 envs 6 w c out.1 out.2).
  - reflexivity.
  - vm_compute. discriminate.
  - vm_compute. discriminate.
  - apply surjective_pairing.
Defined.

(** The daily job applies the same update to each client it serves. *)
Lemma process_clients_quota window env cs s dir cs' n s' :
  Scheduler.process_clients window env cs s dir = (cs', n, s') ->
  Forall2
    (fun c c' =>
       Client.lead_count c' = Client.lead_count c /\
       (0 <= Client.remaining_quota c -> 0 <= Client.lead_count c ->
        0 <= Client.remaining_quota c' <= Client.remaining_quota c))
    cs cs'.
Proof.
  revert s cs' n s'. induction cs as [|c cs IH]; intros s cs' n s'; simpl.
  - intros [= <- _ _]. constructor.
  - destruct (Client.active c && (0 <? Client.remaining_quota c)).
    + destruct (process_client_delivery window env c s dir)
        as [[err|res] s1] eqn:Hrun;
        destruct (Scheduler.process_clients window env cs s1 dir)
          as [[rest n1] s2] eqn:Hrest;
        intros [= <- _ _]; constructor; try by eapply IH.
      * split; [done | lia].
      * simpl. split; [done|]. intros Hq Hlc.
        assert (Hcap : 0 <= max_leads c) by (unfold max_leads; lia).
        pose proof (process_client_delivery_size _ _ _ _ _ _ _ Hrun Hcap).
        unfold max_leads in *. lia.
    + destruct (Scheduler.process_clients window env cs s dir)
        as [[rest n1] s2] eqn:Hrest.
      intros [= <- _ _]. constructor; [|by eapply IH]. split; [done | lia].
Qed.

(** The daily job on the spec scenario: Q (quota 2) is served two of
    the three leads and ends with quota 0; the client after it gets the
    remaining lead. *)
Example daily_job_run :
  let q := Scenario.client 6 "Q" "basic" false 2 2 in
  let out :=
    Scheduler._daily_processing_job 30 (Scenario.env_at Scenario.day)
      (Some [q; Scenario.client_F]) empty_dedup
      (Scenario.pool [Scenario.lead_a; Scenario.lead_b; Scenario.lead_c]) in
  (map Client.remaining_quota <$> out.1) = Some [0; 49] /\
  dom (delivered_leads out.2) = {[ "a@x.com"; "b@x.com"; "c@x.com" ]}.
Proof. split; vm_compute; reflexivity. Qed.

(** ** Exclusive deliveries are not recorded as exclusive *)

(** C4.  The code at the failing input: the exclusive client E
    receives a@x.com; the delivered lead carries the exclusive flag, but
    after the delivery its e-mail is in the delivered index only, not in
    the exclusive index, and 31 days later a second exclusive client
    receives the same lead. *)
Theorem exclusive_delivery_not_recorded :
  let dir := Scenario.pool [Scenario.lead_a] in
  let E2 := Scenario.client 9 "E2" "pro" true 50 50 in
  let '(out, s') :=
    process_client_delivery 30 (Scenario.env_at 0) Scenario.client_E
      empty_dedup dir in
  (exists res, out = inr res /\
     map Lead.email (csv_rows res) = ["a@x.com"] /\
     map Lead.exclusive (csv_rows res) = [true]) /\
  delivered_leads s' !! "a@x.com" = Some (Iso 0) /\
  is_lead_exclusive_delivered s' "a@x.com" = false /\
  (exists res2,
     (process_client_delivery 30 (Scenario.env_at (31 * Scenario.day)) E2
        s' dir).1 = inr res2 /\
     map Lead.email (csv_rows res2) = ["a@x.com"]).
Proof.
  vm_compute. split; [eexists; repeat split|].
  split; [reflexivity|]. split; [reflexivity|].
  eexists. split; reflexivity.
Qed.

(** ** [remove_duplicates] swallows its failures *)

Lemma exc_fold_raises_inv {A S : Type} (f : S -> A -> Exc S) (l : list A)
    (s : S) :
  raises (exc_fold f l s) -> exists a s', a ∈ l /\ raises (f s' a).
Proof.
  revert s. induction l as [|a l IH]; intros s [e He]; simpl in He; [done|].
  destruct (f s a) as [e'|s1] eqn:Hf; simpl in He.
  - exists a, s. split; [by left | by exists e'; rewrite Hf].
  - destruct (IH s1) as (b & s2 & Hin & Hb); [by exists e|].
    exists b, s2. split; [by right | done].
Qed.

Lemma recent_delivered_raises_iff window s now :
  raises (recent_delivered window s now) <->
  exists k raw, delivered_leads s !! k = Some (Malformed raw).
Proof.
  unfold recent_delivered. split.
  - intros ([k v] & acc & Hin & [e He])%exc_fold_raises_inv. simpl in He.
    destruct v as [t|raw]; [discriminate|].
    exists k, raw. by apply elem_of_map_to_list.
  - intros (k & raw & Hk).
    apply exc_fold_raises with (a := (k, Malformed raw)).
    + by apply elem_of_map_to_list.
    + intros acc. by eexists.
Qed.

(** When every stored date parses, [recent_delivered] is the set of
    e-mails delivered after the cutoff: the same comparison as
    [is_lead_delivered]. *)
Lemma recent_delivered_elem window s now recent k :
  recent_delivered window s now = inr recent ->
  k ∈ recent <-> is_lead_delivered window s now k = inr true.
Proof.
  unfold recent_delivered, is_lead_delivered.
  set (f := fun (acc : gset string) (item : string * IsoString) =>
    delivery_date <- fromisoformat item.2 ;;
    ret (if now - timedelta_days window <? delivery_date
         then {[item.1]} ∪ acc else acc)).
  assert (Hgen : forall l acc r, exc_fold f l acc = inr r ->
    k ∈ r <-> k ∈ acc \/
      exists t, (k, Iso t) ∈ l /\ (now - timedelta_days window <? t) = true).
  { induction l as [|[k' v] l IH]; intros acc r; simpl.
    - intros [= <-]. split; [by left|]. intros [?|(t & Hin & _)]; [done|].
      by apply not_elem_of_nil in Hin.
    - intros H. apply exc_bind_inr in H as (acc' & Hstep & Hrest).
      rewrite (IH _ _ Hrest). unfold f in Hstep. simpl in Hstep.
      destruct v as [t'|raw]; [|discriminate]. simpl in Hstep.
      injection Hstep as <-. split.
      + intros [Hacc|(t & Hin & Ht)].
        * destruct (now - timedelta_days window <? t') eqn:Hlt; [|by left].
          apply elem_of_union in Hacc as [->%elem_of_singleton|?]; [|by left].
          right. exists t'. split; [by left | done].
        * right. exists t. split; [by right | done].
      + intros [Hacc|(t & Hin & Ht)].
        * left. destruct (now - timedelta_days window <? t'); [|done].
          apply elem_of_union. by right.
        * apply elem_of_cons in Hin as [[= -> ->]|Hin].
          -- left. rewrite Ht. apply elem_of_union. left.
             by apply elem_of_singleton.
          -- right. by exists t. }
  intros Hfold. rewrite (Hgen _ _ _ Hfold). split.
  - intros [?|(t & Hin & Ht)]; [set_solver|].
    apply elem_of_map_to_list in Hin. rewrite Hin. simpl. by rewrite Ht.
  - destruct (delivered_leads s !! k) as [[t|raw]|] eqn:Hk; simpl;
      [|discriminate..].
    intros [= Ht]. right. exists t. split; [|done].
    by apply elem_of_map_to_list.
Qed.

Lemma remove_duplicates_body_raises_iff window s now df :
  raises (remove_duplicates_body window s now df) <->
  column_index "email" (columns df) = None \/
  exists k raw, delivered_leads s !! k = Some (Malformed raw).
Proof.
  unfold remove_duplicates_body, drop_duplicates, drop_isin.
  destruct (column_index "email" (columns df)) as [i|] eqn:Hcol; simpl.
  - rewrite <- (recent_delivered_raises_iff window s now).
    destruct (recent_delivered window s now) as [e|recent]; simpl.
    + split; [intros _; right; by exists e | intros _; by exists e].
    + rewrite Hcol. simpl. split; [by intros [e ?] | by intros [?|[e ?]]].
  - split; [by left | intros _; by eexists].
Qed.

(** C10.  [remove_duplicates] never propagates an error: whenever its
    [try] block raises, it returns the frame it was given, unchanged,
    internal duplicates and recently delivered leads included. *)
Theorem remove_duplicates_failure_returns_input window s now df :
  raises (remove_duplicates_body window s now df) ->
  remove_duplicates window s now df = df.
Proof. intros Hr. unfold remove_duplicates. by apply try_except_raises. Qed.

(** One unreadable date in the index, for an unrelated e-mail: the
    upload comes back with its duplicate row and with b@x.com, which was
    delivered two days before. *)
Lemma remove_duplicates_failure_returns_input_witness :
  let s :=
    {| delivered_leads :=
         {[ "b@x.com" := Iso (8 * Scenario.day);
            "z@x.com" := Malformed "yesterday" ]};
       exclusive_leads := ∅ |} in
  let df :=
    {| columns := ["first_name"; "email"];
       rows := [["A"; "a@x.com"]; ["B"; "b@x.com"]; ["A2"; "a@x.com"]] |} in
  remove_duplicates 30 s (10 * Scenario.day) df = df.
Proof.
  intros s df.
  apply (remove_duplicates_failure_returns_input 30 s (10 * Scenario.day) df).
  eexists. vm_compute. reflexivity.
Defined.

(** The same upload against a readable index: the duplicate row and the
    recently delivered lead are removed. *)
Example remove_duplicates_normal_run :
  remove_duplicates 30
    {| delivered_leads := {[ "b@x.com" := Iso (8 * Scenario.day) ]};
       exclusive_leads := ∅ |}
    (10 * Scenario.day)
    {| columns := ["first_name"; "email"];
       rows := [["A"; "a@x.com"]; ["B"; "b@x.com"]; ["A2"; "a@x.com"]] |}
  = {| columns := ["first_name"; "email"]; rows := [["A"; "a@x.com"]] |}.
Proof. vm_compute. reflexivity. Qed.

(** ** The scenarios of the specification, run on the code *)

(** a@x.com was delivered exclusively on day 0; on day 1 the shared
    client F asks, the pool holds only a@x.com: nothing is eligible,
    which the code reports by raising. *)
Example scenario_exclusive_then_shared :
  let s0 := mark_leads_as_delivered 0 ["a@x.com"] true empty_dedup in
  process_client_delivery 30 (Scenario.env_at Scenario.day) Scenario.client_F
    s0 (Scenario.pool [Scenario.lead_a])
  = (inl (ValueError "No leads available for delivery"), s0).
Proof. vm_compute. reflexivity. Qed.

(** b@x.com was delivered to a shared client on day 0; on day 31 it is
    delivered again. *)
Example scenario_redelivery_on_day_31 :
  let s0 := mark_leads_as_delivered 0 ["b@x.com"] false empty_dedup in
  exists res,
    (process_client_delivery 30 (Scenario.env_at (31 * Scenario.day))
       Scenario.client_F s0 (Scenario.pool [Scenario.lead_b])).1 = inr res /\
    map Lead.email (csv_rows res) = ["b@x.com"].
Proof. eexists. split; vm_compute; reflexivity. Qed.

(** * Properties of the remaining code *)

(** ** [remove_duplicates] when nothing raises *)

Lemma keep_first_sublist key seen l : sublist (keep_first key seen l) l.
Proof.
  revert seen. induction l as [|r l IH]; intros seen; simpl; [constructor|].
  case_bool_decide; [apply sublist_cons | apply sublist_skip]; apply IH.
Qed.

Lemma keep_first_keys key seen l r :
  r ∈ keep_first key seen l -> key r ∉ seen.
Proof.
  revert seen. induction l as [|x l IH]; intros seen; simpl.
  - by intros ?%not_elem_of_nil.
  - case_bool_decide as Hx; [apply IH|].
    intros [->|Hr]%elem_of_cons; [done|].
    apply IH in Hr. set_solver.
Qed.

Lemma keep_first_NoDup key seen l : NoDup (map key (keep_first key seen l)).
Proof.
  revert seen. induction l as [|x l IH]; intros seen; simpl; [constructor|].
  case_bool_decide as Hx; [apply IH|]. simpl. constructor; [|apply IH].
  intros (r & Hk & Hr)%list_elem_of_fmap.
  apply keep_first_keys in Hr. set_solver.
Qed.

Lemma keep_first_complete key seen l r :
  r ∈ l -> key r ∉ seen -> key r ∈ map key (keep_first key seen l).
Proof.
  revert seen. induction l as [|x l IH]; intros seen; simpl.
  - by intros ?%not_elem_of_nil.
  - intros [->|Hr]%elem_of_cons Hseen.
    + rewrite bool_decide_eq_false_2 by done. simpl. by left.
    + case_bool_decide as Hx; [by apply IH|]. simpl.
      destruct (decide (key r = key x)) as [->|Hne]; [by left|].
      right. apply IH; [done|].
      apply not_elem_of_union. split; [by apply not_elem_of_singleton | done].
Qed.

Lemma keep_first_id key seen l :
  NoDup (map key l) -> (forall r, r ∈ l -> key r ∉ seen) ->
  keep_first key seen l = l.
Proof.
  revert seen. induction l as [|x l IH]; intros seen Hnd Hseen; simpl; [done|].
  apply NoDup_cons in Hnd as [Hx Hnd].
  rewrite bool_decide_eq_false_2 by (apply Hseen; by left).
  f_equal. apply IH; [done|]. intros r Hr.
  assert (key r <> key x).
  { intros Heq. apply Hx. rewrite <- Heq. by apply list_elem_of_fmap_2. }
  apply not_elem_of_union. split; [by apply not_elem_of_singleton|].
  apply Hseen. by right.
Qed.

Lemma recent_delivered_no_raise window s now :
  dates_parse (delivered_leads s) ->
  exists recent, recent_delivered window s now = inr recent.
Proof.
  intros Hp. destruct (recent_delivered window s now) as [e|recent] eqn:Hr;
    [|by eexists].
  assert (Hraises : raises (recent_delivered window s now)) by (by exists e).
  apply recent_delivered_raises_iff in Hraises as (k & raw & Hk).
  by destruct (Hp _ _ Hk).
Qed.

Lemma is_lead_delivered_no_raise window s now e :
  dates_parse (delivered_leads s) ->
  exists b, is_lead_delivered window s now e = inr b.
Proof.
  intros Hp. unfold is_lead_delivered.
  destruct (delivered_leads s !! e) as [v|] eqn:Hv; [|by eexists].
  destruct (Hp _ _ Hv) as [t ->]. by eexists.
Qed.

(** The frame [remove_duplicates] returns when nothing raises. *)
Lemma remove_duplicates_ok window s now df i :
  column_index "email" (columns df) = Some i ->
  dates_parse (delivered_leads s) ->
  exists recent,
    recent_delivered window s now = inr recent /\
    remove_duplicates window s now df
    = {| columns := columns df;
         rows := filter (fun r => cell i r ∉ recent)
                   (keep_first (cell i) ∅ (rows df)) |}.
Proof.
  intros Hcol Hp.
  destruct (recent_delivered_no_raise window s now Hp) as [recent Hr].
  exists recent. split; [done|].
  unfold remove_duplicates, remove_duplicates_body, drop_duplicates, drop_isin.
  rewrite Hcol. simpl. rewrite Hr. simpl. by rewrite Hcol.
Qed.

Lemma not_recent_iff window s now recent e :
  dates_parse (delivered_leads s) ->
  recent_delivered window s now = inr recent ->
  e ∉ recent <-> is_lead_delivered window s now e = inr false.
Proof.
  intros Hp Hr. rewrite (recent_delivered_elem _ _ _ _ e Hr).
  destruct (is_lead_delivered_no_raise window s now e Hp) as [[|] ->];
    split; (done || congruence || (intros H; by exfalso; apply H)).
Qed.

(** X1.  When the frame has an e-mail column and every stored date
    parses, the frame returned by [remove_duplicates] has the columns of
    the input, its rows are rows of the input in their original order,
    no two of them share an e-mail, and none of their e-mails is inside
    the deduplication window. *)
Theorem remove_duplicates_sound window s now df i :
  column_index "email" (columns df) = Some i ->
  dates_parse (delivered_leads s) ->
  columns (remove_duplicates window s now df) = columns df /\
  sublist (rows (remove_duplicates window s now df)) (rows df) /\
  NoDup (emails_at i (rows (remove_duplicates window s now df))) /\
  (forall r, r ∈ rows (remove_duplicates window s now df) ->
     is_lead_delivered window s now (cell i r) = inr false).
Proof.
  intros Hcol Hp.
  destruct (remove_duplicates_ok window s now df i Hcol Hp)
    as (recent & Hr & ->). simpl.
  split; [done|]. split; [|split].
  - etrans; [apply sublist_filter | apply keep_first_sublist].
  - unfold emails_at.
    assert (Hsub : sublist
      (map (cell i) (filter (fun r => cell i r ∉ recent)
                       (keep_first (cell i) ∅ (rows df))))
      (map (cell i) (keep_first (cell i) ∅ (rows df))))
      by apply fmap_sublist, sublist_filter.
    eapply sublist_NoDup in Hsub; [exact Hsub | apply keep_first_NoDup].
  - intros r [Hnr _]%list_elem_of_filter.
    by apply (not_recent_iff window s now recent).
Qed.

(** X2.  Under the same conditions no lead is lost: every e-mail of the
    input that is outside the deduplication window still occurs in the
    returned frame. *)
Theorem remove_duplicates_complete window s now df i r :
  column_index "email" (columns df) = Some i ->
  dates_parse (delivered_leads s) ->
  r ∈ rows df ->
  is_lead_delivered window s now (cell i r) = inr false ->
  cell i r ∈ emails_at i (rows (remove_duplicates window s now df)).
Proof.
  intros Hcol Hp Hin Hd.
  destruct (remove_duplicates_ok window s now df i Hcol Hp)
    as (recent & Hr & ->). simpl. unfold emails_at.
  pose proof (keep_first_complete (cell i) ∅ (rows df) r Hin) as Hk.
  apply list_elem_of_fmap in Hk as (r' & Heq & Hr'); [|set_solver].
  rewrite Heq. apply list_elem_of_fmap_2, list_elem_of_filter.
  split; [|done]. rewrite <- Heq.
  by apply (not_recent_iff window s now recent).
Qed.

(** X3.  [remove_duplicates] is idempotent: run again at the same time
    on its own output, it returns that output, whether the first run
    raised or not. *)
Theorem remove_duplicates_idempotent window s now df :
  remove_duplicates window s now (remove_duplicates window s now df)
  = remove_duplicates window s now df.
Proof.
  destruct (remove_duplicates_body window s now df) as [e|df'] eqn:Hb.
  - assert (Hdf : remove_duplicates window s now df = df)
      by (unfold remove_duplicates; by rewrite Hb).
    rewrite Hdf. exact Hdf.
  - unfold remove_duplicates at 2 3. rewrite Hb. simpl.
    unfold remove_duplicates_body, drop_duplicates, drop_isin in Hb.
    destruct (column_index "email" (columns df)) as [i|] eqn:Hcol;
      [|discriminate]. simpl in Hb.
    destruct (recent_delivered window s now) as [e|recent] eqn:Hr;
      [discriminate|]. simpl in Hb. rewrite Hcol in Hb. simpl in Hb.
    injection Hb as <-.
    unfold remove_duplicates, remove_duplicates_body, drop_duplicates,
      drop_isin. simpl. rewrite Hcol. simpl. rewrite Hr. simpl.
    rewrite Hcol. simpl. f_equal.
    rewrite keep_first_id.
    + apply list_filter_filter_l. done.
    + assert (Hsub : sublist
        (map (cell i) (filter (fun r => cell i r ∉ recent)
                         (keep_first (cell i) ∅ (rows df))))
        (map (cell i) (keep_first (cell i) ∅ (rows df))))
        by apply fmap_sublist, sublist_filter.
      eapply sublist_NoDup in Hsub; [exact Hsub | apply keep_first_NoDup].
    + set_solver.
Qed.

Lemma dates_parse_singleton k t : dates_parse {[ k := Iso t ]}.
Proof. intros k' v [_ <-]%lookup_singleton_Some. by eexists. Qed.

Lemma dates_parse_empty : dates_parse ∅.
Proof. intros k v Hk. by rewrite lookup_empty in Hk. Qed.

Lemma remove_duplicates_sound_witness :
  let s := {| delivered_leads := {[ "b@x.com" := Iso (8 * Scenario.day) ]};
              exclusive_leads := ∅ |} in
  let now := 10 * Scenario.day in
  let df :=
    {| columns := ["first_name"; "email"];
       rows := [["A"; "a@x.com"]; ["B"; "b@x.com"]; ["A2"; "a@x.com"]] |} in
  columns (remove_duplicates 30 s now df) = columns df /\
  sublist (rows (remove_duplicates 30 s now df)) (rows df) /\
  NoDup (emails_at 1 (rows (remove_duplicates 30 s now df))) /\
  (forall r, r ∈ rows (remove_duplicates 30 s now df) ->
     is_lead_delivered 30 s now (cell 1 r) = inr false).
Proof.
  intros s now df. apply (remove_duplicates_sound 30 s now df 1).
  - reflexivity.
  - apply dates_parse_singleton.
Defined.

Lemma remove_duplicates_complete_witness :
  let s := {| delivered_leads := {[ "b@x.com" := Iso (8 * Scenario.day) ]};
              exclusive_leads := ∅ |} in
  let now := 10 * Scenario.day in
  let df :=
    {| columns := ["first_name"; "email"];
       rows := [["A"; "a@x.com"]; ["B"; "b@x.com"]; ["A2"; "a@x.com"]] |} in
  cell 1 ["A2"; "a@x.com"]
    ∈ emails_at 1 (rows (remove_duplicates 30 s now df)).
Proof.
  intros s now df.
  apply (remove_duplicates_complete 30 s now df 1 ["A2"; "a@x.com"]).
  - reflexivity.
  - apply dates_parse_singleton.
  - apply elem_of_cons. right. apply elem_of_cons. right.
    apply list_elem_of_singleton. reflexivity.
  - reflexivity.
Defined.

(** ** [clean_old_records] *)

Lemma keep_newer_fold_notin cutoff (l : list (string * IsoString)) acc r k :
  k ∉ l.*1 ->
  exc_fold
    (fun (acc : gmap string IsoString) (item : string * IsoString) =>
       date <- fromisoformat item.2 ;;
       ret (if cutoff <? date then <[item.1 := item.2]> acc else acc))
    l acc = inr r ->
  r !! k = acc !! k.
Proof.
  revert acc. induction l as [|[k' v] l IH]; intros acc Hk; simpl.
  - by intros [= <-].
  - intros H. apply exc_bind_inr in H as (acc' & Hstep & Hrest).
    apply not_elem_of_cons in Hk as [Hne Hk]. simpl in Hne.
    rewrite (IH _ Hk Hrest).
    destruct v as [t|raw]; [|discriminate]. simpl in Hstep.
    injection Hstep as <-.
    destruct (cutoff <? t); [by rewrite lookup_insert_ne | done].
Qed.

Lemma keep_newer_fold_in cutoff (l : list (string * IsoString)) acc r k v :
  NoDup l.*1 -> (k, v) ∈ l ->
  exc_fold
    (fun (acc : gmap string IsoString) (item : string * IsoString) =>
       date <- fromisoformat item.2 ;;
       ret (if cutoff <? date then <[item.1 := item.2]> acc else acc))
    l acc = inr r ->
  exists t, v = Iso t /\
    r !! k = if cutoff <? t then Some (Iso t) else acc !! k.
Proof.
  revert acc. induction l as [|[k' v'] l IH]; intros acc Hnd Hin; simpl.
  - by apply not_elem_of_nil in Hin.
  - intros H. apply exc_bind_inr in H as (acc' & Hstep & Hrest).
    apply NoDup_cons in Hnd as [Hk' Hnd]. simpl in Hk'.
    destruct v' as [t'|raw]; [|discriminate]. simpl in Hstep.
    injection Hstep as <-.
    apply elem_of_cons in Hin as [[= -> ->]|Hin].
    + exists t'. split; [done|].
      rewrite (keep_newer_fold_notin _ _ _ _ _ Hk' Hrest).
      destruct (cutoff <? t'); [by rewrite lookup_insert_eq | done].
    + destruct (IH _ Hnd Hin Hrest) as (t & -> & Hr). exists t. split; [done|].
      rewrite Hr. destruct (cutoff <? t); [done|].
      assert (k <> k').
      { intros ->. apply Hk'. by apply (list_elem_of_fmap_2 fst _ (k', Iso t)). }
      destruct (cutoff <? t'); [by rewrite lookup_insert_ne | done].
Qed.

(** What a successful comprehension keeps. *)
Lemma keep_newer_lookup cutoff d d' k :
  DedupMaintenance.keep_newer cutoff d = inr d' ->
  d' !! k = match d !! k with
            | Some (Iso t) => if cutoff <? t then Some (Iso t) else None
            | _ => None
            end.
Proof.
  unfold DedupMaintenance.keep_newer. intros H.
  destruct (d !! k) as [v|] eqn:Hk.
  - apply elem_of_map_to_list in Hk.
    destruct (keep_newer_fold_in _ _ _ _ _ _ (NoDup_fst_map_to_list d) Hk H)
      as (t & -> & ->).
    by rewrite lookup_empty.
  - assert (Hnin : k ∉ (map_to_list d).*1).
    { intros ([k' v] & -> & Hin)%list_elem_of_fmap.
      apply elem_of_map_to_list in Hin. simpl in Hk. congruence. }
    rewrite (keep_newer_fold_notin _ _ _ _ k Hnin H). by rewrite lookup_empty.
Qed.

Lemma keep_newer_no_raise cutoff d :
  dates_parse d -> exists d', DedupMaintenance.keep_newer cutoff d = inr d'.
Proof.
  intros Hp. destruct (DedupMaintenance.keep_newer cutoff d) as [e|d'] eqn:H;
    [|by eexists].
  assert (Hr : raises (DedupMaintenance.keep_newer cutoff d)) by (by exists e).
  apply exc_fold_raises_inv in Hr as ([k v] & acc & Hin & [e' He']).
  apply elem_of_map_to_list in Hin. destruct (Hp _ _ Hin) as [t ->].
  discriminate.
Qed.

(** X4.  For a non-negative window, [clean_old_records] never changes
    what [is_lead_delivered] answers, at the time of the cleanup or
    later, for any e-mail and any state of the dictionaries. *)
Theorem clean_old_records_keeps_window window s now now' e :
  0 <= window -> now <= now' ->
  is_lead_delivered window
    (DedupMaintenance.clean_old_records window s now) now' e
  = is_lead_delivered window s now' e.
Proof.
  intros Hw Hnow. unfold DedupMaintenance.clean_old_records.
  destruct (DedupMaintenance.keep_newer _ (delivered_leads s))
    as [err|d'] eqn:Hd; [done|].
  assert (Hgoal : forall x,
    is_lead_delivered window {| delivered_leads := d'; exclusive_leads := x |}
      now' e = is_lead_delivered window s now' e).
  { intros x. unfold is_lead_delivered. simpl.
    rewrite (keep_newer_lookup _ _ _ e Hd).
    destruct (delivered_leads s !! e) as [[t|raw]|] eqn:Hk; [| |done].
    - destruct (Z.ltb_spec (now - timedelta_days (window * 2)) t); [done|].
      simpl. f_equal. symmetry. apply Z.ltb_ge.
      unfold timedelta_days in *. lia.
    - exfalso.
      assert (Hr : raises (DedupMaintenance.keep_newer
        (now - timedelta_days (window * 2)) (delivered_leads s))).
      { apply exc_fold_raises with (a := (e, Malformed raw)).
        - by apply elem_of_map_to_list.
        - intros acc. by eexists. }
      destruct Hr as [err Hr]. congruence. }
  destruct (DedupMaintenance.keep_newer _ (exclusive_leads s)); apply Hgoal.
Qed.

Lemma clean_old_records_keeps_window_witness :
  let s := {| delivered_leads := {[ "a@x.com" := Iso 0 ]};
              exclusive_leads := ∅ |} in
  is_lead_delivered 30
    (DedupMaintenance.clean_old_records 30 s (61 * Scenario.day))
    (62 * Scenario.day) "a@x.com"
  = is_lead_delivered 30 s (62 * Scenario.day) "a@x.com".
Proof.
  intros s.
  apply (clean_old_records_keeps_window 30 s (61 * Scenario.day)
           (62 * Scenario.day) "a@x.com"); vm_compute; discriminate.
Defined.

(** X5.  Exclusive entries live 90 days whatever the window: when all
    dates parse, after [clean_old_records] at time [now] an e-mail that
    was recorded as exclusive at time [T] is still in the exclusive
    index exactly when [T] is less than 90 days before [now]. *)
Theorem clean_old_records_exclusive_expiry window s now e T :
  dates_parse (delivered_leads s) ->
  dates_parse (exclusive_leads s) ->
  exclusive_leads s !! e = Some (Iso T) ->
  is_lead_exclusive_delivered
    (DedupMaintenance.clean_old_records window s now) e
  = (now - timedelta_days 90 <? T).
Proof.
  intros Hd Hx He. unfold DedupMaintenance.clean_old_records.
  destruct (keep_newer_no_raise (now - timedelta_days (window * 2)) _ Hd)
    as [d' ->].
  destruct (keep_newer_no_raise (now - timedelta_days 90) _ Hx) as [x' Hx'].
  rewrite Hx'. unfold is_lead_exclusive_delivered. simpl.
  rewrite (keep_newer_lookup _ _ _ e Hx'), He.
  by destruct (now - timedelta_days 90 <? T).
Qed.

Lemma clean_old_records_exclusive_expiry_witness :
  let s := {| delivered_leads := {[ "a@x.com" := Iso 0 ]};
              exclusive_leads := {[ "a@x.com" := Iso 0 ]} |} in
  is_lead_exclusive_delivered
    (DedupMaintenance.clean_old_records 30 s (91 * Scenario.day)) "a@x.com"
  = (91 * Scenario.day - timedelta_days 90 <? 0).
Proof.
  intros s.
  apply (clean_old_records_exclusive_expiry 30 s (91 * Scenario.day)
           "a@x.com" 0).
  - apply dates_parse_singleton.
  - apply dates_parse_singleton.
  - reflexivity.
Defined.

(** X6.  [clean_old_records] only removes: whatever happens, each of
    the two dictionaries afterwards is contained in the dictionary
    before (no entry is added and no date is altered). *)
Theorem clean_old_records_only_removes window s now :
  delivered_leads (DedupMaintenance.clean_old_records window s now)
    ⊆ delivered_leads s /\
  exclusive_leads (DedupMaintenance.clean_old_records window s now)
    ⊆ exclusive_leads s.
Proof.
  assert (Hsub : forall cutoff d d',
    DedupMaintenance.keep_newer cutoff d = inr d' -> d' ⊆ d).
  { intros cutoff d d' H. apply map_subseteq_spec. intros k v.
    rewrite (keep_newer_lookup _ _ _ k H).
    destruct (d !! k) as [[t|raw]|]; [|done..].
    by destruct (cutoff <? t). }
  unfold DedupMaintenance.clean_old_records.
  destruct (DedupMaintenance.keep_newer _ (delivered_leads s))
    as [err|d'] eqn:Hd; [done|].
  destruct (DedupMaintenance.keep_newer _ (exclusive_leads s))
    as [err|x'] eqn:Hx; simpl; split; eauto.
Qed.

(** ** [get_deduplication_stats] *)

Lemma count_recent_fold cutoff (l : list (string * IsoString))
    (acc : gset string) (n m : nat) :
  NoDup l.*1 -> (forall k, k ∈ l.*1 -> k ∉ acc) ->
  exc_fold
    (fun (n : nat) (date : IsoString) =>
       t <- fromisoformat date ;; ret (if cutoff <? t then S n else n))
    l.*2 n = inr m ->
  exists r,
    exc_fold
      (fun (acc : gset string) (item : string * IsoString) =>
         delivery_date <- fromisoformat item.2 ;;
         ret (if cutoff <? delivery_date then {[item.1]} ∪ acc else acc))
      l acc = inr r /\
    (size r + n = size acc + m)%nat /\ (m <= n + length l)%nat.
Proof.
  revert acc n. induction l as [|[k v] l IH]; intros acc n Hnd Hacc; simpl.
  - intros [= <-]. exists acc. repeat split; lia.
  - intros H. apply exc_bind_inr in H as (n' & Hstep & Hrest).
    destruct v as [t|raw]; [|discriminate]. simpl in Hstep.
    injection Hstep as <-. simpl.
    apply NoDup_cons in Hnd as [Hk Hnd].
    assert (Hkacc : k ∉ acc) by (apply Hacc; by left).
    destruct (cutoff <? t).
    + destruct (IH ({[k]} ∪ acc) (S n) Hnd) as (r & Hr & Hsize & Hle);
        [|done|].
      * intros k' Hk'. apply not_elem_of_union. split.
        -- apply not_elem_of_singleton. by intros ->.
        -- apply Hacc. by right.
      * exists r. split; [done|].
        rewrite size_union, size_singleton in Hsize
          by (apply disjoint_singleton_l; done).
        split; lia.
    + destruct (IH acc n Hnd) as (r & Hr & Hsize & Hle); [|done|].
      * intros k' Hk'. apply Hacc. by right.
      * exists r. repeat split; [done | lia | lia].
Qed.

(** X7.  When [get_deduplication_stats] returns its statistics, the
    number of recent deliveries it reports is at most the number of
    tracked leads, and it is the number of e-mails in the set
    [recent_delivered] that [remove_duplicates] filters uploads
    against. *)
Theorem stats_count_recent window s now st :
  DedupMaintenance.get_deduplication_stats window s now = Some st ->
  (DedupMaintenance.recent_delivered_leads st
   <= DedupMaintenance.total_tracked_leads st)%nat /\
  exists recent,
    recent_delivered window s now = inr recent /\
    DedupMaintenance.recent_delivered_leads st = size recent.
Proof.
  unfold DedupMaintenance.get_deduplication_stats,
    DedupMaintenance.count_recent.
  destruct (exc_fold _ _ _) as [err|m] eqn:Hcnt; [discriminate|].
  intros [= <-]. simpl.
  destruct (count_recent_fold _ _ ∅ _ _
              (NoDup_fst_map_to_list (delivered_leads s))
              ltac:(intros; apply not_elem_of_empty) Hcnt)
    as (r & Hr & Hsize & Hle).
  rewrite length_map_to_list in Hle. split; [lia|].
  exists r. split; [exact Hr|]. rewrite size_empty in Hsize. lia.
Qed.

Lemma stats_count_recent_witness :
  let s := {| delivered_leads :=
                {[ "a@x.com" := Iso 0; "b@x.com" := Iso (100 * Scenario.day) ]};
              exclusive_leads := ∅ |} in
  let st :=
    {| DedupMaintenance.total_tracked_leads := 2;
       DedupMaintenance.recent_delivered_leads := 1;
       DedupMaintenance.exclusive_delivered_leads := 0;
       DedupMaintenance.deduplication_window_days := 30;
       DedupMaintenance.last_cleanup := Iso (120 * Scenario.day) |} in
  (DedupMaintenance.recent_delivered_leads st
   <= DedupMaintenance.total_tracked_leads st)%nat /\
  exists recent,
    recent_delivered 30 s (120 * Scenario.day) = inr recent /\
    DedupMaintenance.recent_delivered_leads st = size recent.
Proof.
  intros s st. apply (stats_count_recent 30 s (120 * Scenario.day) st).
  vm_compute. reflexivity.
Defined.

(** ** What a delivery writes, and what it hands over *)

Lemma delivery_effect_lookup window env c s dir res s' :
  process_client_delivery window env c s dir = (inr res, s') ->
  forall e,
    delivered_leads s' !! e
    = if bool_decide (e ∈ delivered_emails res) then Some (Iso (now env))
      else delivered_leads s !! e.
Proof.
  intros H e. apply process_client_delivery_inr in H as (_ & _ & _ & _ & ->).
  apply mark_leads_delivered_lookup.
Qed.

(** X8.  A delivery that returns writes exactly this: every delivered
    e-mail gets the time of the delivery in the delivered index, every
    other entry of that index is left as it was, and the exclusive
    index is not touched. *)
Theorem delivery_effect window env c s dir res s' :
  process_client_delivery window env c s dir = (inr res, s') ->
  (forall e,
     delivered_leads s' !! e
     = if bool_decide (e ∈ delivered_emails res) then Some (Iso (now env))
       else delivered_leads s !! e) /\
  exclusive_leads s' = exclusive_leads s.
Proof.
  intros H. split; [by eapply delivery_effect_lookup|].
  apply process_client_delivery_inr in H as (_ & _ & _ & _ & ->).
  apply mark_leads_exclusive_leads.
Qed.

Lemma delivery_effect_witness :
  let env := Scenario.env_at Scenario.day in
  let dir := Scenario.pool [Scenario.lead_a; Scenario.lead_b] in
  let out := process_client_delivery 30 env Scenario.client_E empty_dedup dir in
  exists res,
    out.1 = inr res /\
    (forall e,
       delivered_leads out.2 !! e
       = if bool_decide (e ∈ delivered_emails res) then Some (Iso (now env))
         else delivered_leads empty_dedup !! e) /\
    exclusive_leads out.2 = exclusive_leads empty_dedup.
Proof.
  intros env dir out.
  destruct out as [[err|res] s'] eqn:Hout; [vm_compute in Hout; discriminate|].
  exists res. split; [reflexivity|].
  exact (delivery_effect 30 env Scenario.client_E empty_dedup dir res s' Hout).
Defined.

(** An e-mail whose delivered entry is inside the window is in no
    delivery. *)
Lemma blocked_not_delivered window env c s dir res s' e t :
  delivered_leads s !! e = Some (Iso t) ->
  now env < t + timedelta_days window ->
  process_client_delivery window env c s dir = (inr res, s') ->
  e ∉ delivered_emails res.
Proof.
  intros He Ht Hrun (L & -> & HL)%list_elem_of_fmap.
  destruct (delivered_from_available _ _ _ _ _ _ _ _ Hrun HL) as [Hsrc Hem].
  apply get_available_leads_elem in Hsrc as [Hel _].
  rewrite <- Hem in Hel. unfold eligible in Hel.
  rewrite (is_lead_delivered_marked _ _ _ _ _ He) in Hel. simpl in Hel.
  assert (Hlt : (now env - timedelta_days window <? t) = true)
    by (apply Z.ltb_lt; lia).
  rewrite Hlt in Hel. discriminate.
Qed.

(** X9.  No lead is delivered twice within the window: of two
    successive deliveries, to any clients and from any directories, the
    second one, if it starts less than [window_days] after the first,
    hands over none of the e-mails of the first. *)
Theorem no_redelivery_within_window window env1 env2 c1 c2 s dir1 dir2
    r1 s1 r2 s2 e :
  process_client_delivery window env1 c1 s dir1 = (inr r1, s1) ->
  process_client_delivery window env2 c2 s1 dir2 = (inr r2, s2) ->
  now env2 < now env1 + timedelta_days window ->
  e ∈ delivered_emails r1 ->
  e ∉ delivered_emails r2.
Proof.
  intros H1 H2 Hnow He.
  apply process_client_delivery_inr in H1 as (_ & _ & _ & _ & Hs1).
  eapply blocked_not_delivered; [|exact Hnow|exact H2].
  rewrite Hs1, mark_leads_delivered_lookup.
  by rewrite bool_decide_eq_true_2.
Qed.

(** The loop that builds the [Lead] objects keeps order, numbers by
    position and copies the client's name and flag. *)
Lemma personalize_shape env c i leads :
  sublist (map Lead.source (personalize env c i leads)) leads /\
  StronglySorted lt (map Lead.lead_number (personalize env c i leads)) /\
  Forall (fun L => (i < Lead.lead_number L <= i + length leads)%nat /\
                   Lead.client_name L = Client.name c /\
                   Lead.exclusive L = Client.exclusive c /\
                   Lead.verified L = true /\
                   Lead.email L = email (Lead.source L))
    (personalize env c i leads).
Proof.
  revert i. induction leads as [|lead leads IH]; intros i; simpl.
  - repeat split; constructor.
  - destruct (IH (S i)) as (Hsub & Hsorted & Hall).
    assert (Hall' : Forall (fun L =>
      (i < Lead.lead_number L <= i + S (length leads))%nat /\
      Lead.client_name L = Client.name c /\
      Lead.exclusive L = Client.exclusive c /\
      Lead.verified L = true /\
      Lead.email L = email (Lead.source L))
      (personalize env c (S i) leads)).
    { eapply Forall_impl; [exact Hall|]. simpl.
      intros L (Hn & ?). split; [lia | done]. }
    destruct (lead_raises env lead); simpl.
    + split; [by apply sublist_cons|]. split; done.
    + split; [by apply sublist_skip|]. split.
      * apply StronglySorted_cons. split; [|done].
        apply Forall_fmap. eapply Forall_impl; [exact Hall|]. simpl.
        intros L (Hn & _). lia.
      * constructor; [|done]. simpl. repeat split; lia.
Qed.

(** X10.  Order and numbering of a delivery: the delivered leads are
    candidates of the batch in their original order, each carries the
    client's name and exclusive flag, is marked verified and has the
    e-mail of its source entry, and the lead numbers, from which the
    lead ids are built, are strictly increasing positions in the
    batch. *)
Theorem delivery_shape window env c s dir res s' :
  process_client_delivery window env c s dir = (inr res, s') ->
  sublist (map Lead.source (csv_rows res))
    (slice_to (max_leads c) (_get_available_leads window s (now env) dir c)) /\
  StronglySorted lt (map Lead.lead_number (csv_rows res)) /\
  Forall (fun L => Lead.client_name L = Client.name c /\
                   Lead.exclusive L = Client.exclusive c /\
                   Lead.verified L = true /\
                   Lead.email L = email (Lead.source L) /\
                   (1 <= Lead.lead_number L)%nat)
    (csv_rows res).
Proof.
  intros H. apply process_client_delivery_inr in H as (_ & -> & _).
  destruct (personalize_shape env c O
    (slice_to (max_leads c) (_get_available_leads window s (now env) dir c)))
    as (Hsub & Hsorted & Hall).
  split; [done|]. split; [done|].
  eapply Forall_impl; [exact Hall|]. simpl. intros L (Hn & ? & ? & ? & ?).
  repeat split; try done. lia.
Qed.

Lemma delivery_shape_witness :
  let env := Scenario.env_at Scenario.day in
  let dir := Scenario.pool [Scenario.lead_a; Scenario.lead_b] in
  let c := Scenario.client_E in
  let out := process_client_delivery 30 env c empty_dedup dir in
  exists res,
    out.1 = inr res /\
    sublist (map Lead.source (csv_rows res))
      (slice_to (max_leads c)
         (_get_available_leads 30 empty_dedup (now env) dir c)) /\
    StronglySorted lt (map Lead.lead_number (csv_rows res)) /\
    Forall (fun L => Lead.client_name L = Client.name c /\
                     Lead.exclusive L = Client.exclusive c /\
                     Lead.verified L = true /\
                     Lead.email L = email (Lead.source L) /\
                     (1 <= Lead.lead_number L)%nat)
      (csv_rows res).
Proof.
  intros env dir c out.
  destruct out as [[err|res] s'] eqn:Hout; [vm_compute in Hout; discriminate|].
  exists res. split; [reflexivity|].
  exact (delivery_shape 30 env c empty_dedup dir res s' Hout).
Defined.

Lemma no_redelivery_within_window_witness :
  let env1 := Scenario.env_at Scenario.day in
  let env2 := Scenario.env_at (2 * Scenario.day) in
  let dir := Scenario.pool [Scenario.lead_a; Scenario.lead_b] in
  let c1 := Scenario.client 7 "S" "basic" false 1 1 in
  exists r1 s1 r2 s2,
    process_client_delivery 30 env1 c1 empty_dedup dir = (inr r1, s1) /\
    process_client_delivery 30 env2 Scenario.client_E s1 dir = (inr r2, s2) /\
    delivered_emails r1 = ["a@x.com"] /\
    delivered_emails r2 = ["b@x.com"] /\
    "a@x.com" ∉ delivered_emails r2.
Proof.
  intros env1 env2 dir c1. do 4 eexists.
  split; [vm_compute; reflexivity|]. split; [vm_compute; reflexivity|].
  split; [reflexivity|]. split; [reflexivity|].
  eapply (no_redelivery_within_window 30 env1 env2 c1 Scenario.client_E
            empty_dedup dir dir).
  - vm_compute. reflexivity.
  - vm_compute. reflexivity.
  - vm_compute. reflexivity.
  - apply list_elem_of_singleton. reflexivity.
Defined.

(** ** [run_manual_processing] *)

Lemma process_all_never_twice window env cs s dir rs s' (E : list string) :
  0 < window ->
  (forall e, e ∈ E -> delivered_leads s !! e = Some (Iso (now env))) ->
  ManualRun.process_all window env cs s dir = (rs, s') ->
  Forall (fun r => forall e, e ∈ E -> e ∉ delivered_emails r) rs /\
  never_twice (map delivered_emails rs).
Proof.
  intros Hw. revert s rs s' E.
  induction cs as [|c cs IH]; intros s rs s' E Hinv; simpl.
  - intros [= <- _]. split; [constructor | done].
  - destruct (Client.active c && (0 <? Client.remaining_quota c));
      [|by apply IH].
    destruct (process_client_delivery window env c s dir)
      as [[err|r] s1] eqn:Hrun.
    + apply process_client_delivery_inl in Hrun as ->. by apply IH.
    + destruct (ManualRun.process_all window env cs s1 dir)
        as [rs1 s2] eqn:Hrest.
      intros [= <- <-].
      assert (Hblocked : forall e, e ∈ E -> e ∉ delivered_emails r).
      { intros e He. eapply blocked_not_delivered; [by apply Hinv| |exact Hrun].
        unfold timedelta_days. lia. }
      pose proof (delivery_effect_lookup _ _ _ _ _ _ _ Hrun) as Heff.
      destruct (IH s1 rs1 s2 (E ++ delivered_emails r)%list) as [Hall Hnt];
        [|done|].
      * intros e He. rewrite Heff. case_bool_decide; [done|].
        apply elem_of_app in He as [He|He]; [by apply Hinv | done].
      * split.
        -- constructor; [done|]. eapply Forall_impl; [exact Hall|]. simpl.
           intros r' Hr' e He. apply Hr'. apply elem_of_app. by left.
        -- simpl. split; [|done]. intros e He. apply Forall_fmap.
           eapply Forall_impl; [exact Hall|]. simpl.
           intros r' Hr'. apply Hr'. apply elem_of_app. by right.
Qed.

(** X11.  One call of [run_manual_processing] for all clients, with a
    positive window: no e-mail is handed to two clients (whatever was
    delivered to one client is not delivered to a later one). *)
Theorem manual_run_never_twice window env cid clients_json s dir rs s' :
  0 < window ->
  ManualRun.run_manual_processing window env cid clients_json s dir
    = (inr (AllResults rs), s') ->
  never_twice (map delivered_emails rs).
Proof.
  intros Hw. unfold ManualRun.run_manual_processing.
  destruct clients_json as [cs|]; [|discriminate].
  assert (Hall : forall rs0 s0,
    ManualRun.process_all window env cs s dir = (rs0, s0) ->
    never_twice (map delivered_emails rs0)).
  { intros rs0 s0 H.
    apply (process_all_never_twice window env cs s dir rs0 s0 [] Hw); [|done].
    by intros e ?%not_elem_of_nil. }
  destruct cid as [cid|].
  - destruct (cid =? 0).
    + destruct (ManualRun.process_all window env cs s dir) as [rs0 s0] eqn:H.
      intros [= <- _]. by eapply Hall.
    + destruct (ManualRun.find_client cid cs); [|discriminate].
      destruct (process_client_delivery window env _ s dir) as [[?|?] ?];
        discriminate.
  - destruct (ManualRun.process_all window env cs s dir) as [rs0 s0] eqn:H.
    intros [= <- _]. by eapply Hall.
Qed.

Lemma manual_run_never_twice_witness :
  let env := Scenario.env_at Scenario.day in
  let dir := Scenario.pool [Scenario.lead_a; Scenario.lead_b; Scenario.lead_c] in
  let c1 := Scenario.client 7 "S" "basic" false 1 1 in
  exists rs s',
    ManualRun.run_manual_processing 30 env None
      (Some [c1; Scenario.client_E]) empty_dedup dir
      = (inr (AllResults rs), s') /\
    map delivered_emails rs = [["a@x.com"]; ["b@x.com"; "c@x.com"]] /\
    never_twice (map delivered_emails rs).
Proof.
  intros env dir c1. do 2 eexists.
  split; [vm_compute; reflexivity|]. split; [reflexivity|].
  eapply (manual_run_never_twice 30 env None (Some [c1; Scenario.client_E])
            empty_dedup dir).
  - reflexivity.
  - vm_compute. reflexivity.
Defined.

(** ** The [process_delivery] route and the daily job: what is left
    alone *)



Lemma quota_lowered_refl c : quota_lowered c c.
Proof.
  unfold quota_lowered. split; [by destruct c|]. split; [done | lia].
Qed.

Lemma process_clients_lowered window env cs s dir cs' n s' :
  Scheduler.process_clients window env cs s dir = (cs', n, s') ->
  Forall2 quota_lowered cs cs'.
Proof.
  revert s cs' n s'. induction cs as [|c cs IH]; intros s cs' n s'; simpl.
  - intros [= <- _ _]. constructor.
  - destruct (Client.active c && (0 <? Client.remaining_quota c)) eqn:Hgo.
    + destruct (process_client_delivery window env c s dir)
        as [[err|res] s1] eqn:Hrun;
        destruct (Scheduler.process_clients window env cs s1 dir)
          as [[rest n1] s2] eqn:Hrest;
        intros [= <- _ _]; constructor; try by eapply IH.
      * apply quota_lowered_refl.
      * apply andb_true_iff in Hgo as [Hact Hq]. apply Z.ltb_lt in Hq.
        unfold quota_lowered. simpl. split; [done|]. split.
        -- intros [Hf|Hle]; [congruence | lia].
        -- intros _ Hlc.
           assert (Hcap : 0 <= max_leads c) by (unfold max_leads; lia).
           pose proof (process_client_delivery_size _ _ _ _ _ _ _ Hrun Hcap).
           unfold max_leads in *. lia.
    + destruct (Scheduler.process_clients window env cs s dir)
        as [[rest n1] s2] eqn:Hrest.
      intros [= <- _ _]. constructor; [apply quota_lowered_refl | by eapply IH].
Qed.

(** X13.  The daily job rewrites [data/clients.json] with the same
    clients in the same order; of each client at most the remaining
    quota has changed; an inactive client or one without quota is left
    as it is; and for a client with non-negative quota and [lead_count]
    the quota has not grown and is not negative. *)
Theorem daily_job_only_lowers_quota window env cs s dir cs' s' :
  Scheduler._daily_processing_job window env (Some cs) s dir
    = (Some cs', s') ->
  Forall2 quota_lowered cs cs'.
Proof.
  unfold Scheduler._daily_processing_job.
  destruct (Scheduler.process_clients window env cs s dir)
    as [[cs1 n] s1] eqn:Hloop.
  destruct ((0 <? n)%nat && clients_write_ok env); intros [= <- _].
  - by eapply process_clients_lowered.
  - apply Forall2_same_length_lookup. split; [done|].
    intros i c c' Hc Hc'. rewrite Hc in Hc'. injection Hc' as <-.
    apply quota_lowered_refl.
Qed.

Lemma daily_job_only_lowers_quota_witness :
  let q := Scenario.client 6 "Q" "basic" false 2 2 in
  let idle := Scenario.client 8 "I" "pro" false 10 0 in
  let cs' := [Client.set_remaining_quota 0 q; idle;
              Client.set_remaining_quota 49 Scenario.client_F] in
  Forall2 quota_lowered [q; idle; Scenario.client_F] cs'.
Proof.
  intros q idle cs'.
  apply (daily_job_only_lowers_quota 30 (Scenario.env_at Scenario.day)
           [q; idle; Scenario.client_F] empty_dedup
           (Scenario.pool [Scenario.lead_a; Scenario.lead_b; Scenario.lead_c])
           cs'
           (mark_leads_as_delivered Scenario.day
              ["a@x.com"; "b@x.com"; "c@x.com"] false empty_dedup)).
  vm_compute. reflexivity.
Defined.

(** ** [process_uploaded_leads] *)

Lemma remove_duplicates_rows_sublist window s now df :
  sublist (rows (remove_duplicates window s now df)) (rows df).
Proof.
  unfold remove_duplicates, remove_duplicates_body, drop_duplicates, drop_isin.
  destruct (column_index "email" (columns df)) as [i|] eqn:Hcol; simpl; [|done].
  destruct (recent_delivered window s now) as [e|recent]; simpl; [done|].
  rewrite Hcol. simpl.
  etrans; [apply sublist_filter | apply keep_first_sublist].
Qed.

Lemma processed_leads_from_length cols clock i rows' :
  length (Upload.processed_leads_from cols clock i rows') = length rows'.
Proof.
  revert i. induction rows' as [|r rows' IH]; intros i; simpl; [done|].
  by rewrite IH.
Qed.

Lemma processed_leads_from_elem cols clock i rows' j row :
  rows' !! j = Some row ->
  Upload.lead_data_of_row cols (clock (i + j)%nat) row
    ∈ Upload.processed_leads_from cols clock i rows'.
Proof.
  revert i j. induction rows' as [|r rows' IH]; intros i j; simpl; [done|].
  destruct j as [|j]; simpl.
  - intros [= ->]. rewrite Nat.add_0_r. by left.
  - intros Hj. right. replace (i + S j)%nat with (S i + j)%nat by lia.
    by apply IH.
Qed.

(** X14.  A successful upload accounts for every row of the file: the
    leads stored plus the duplicates removed are the rows read, the
    number of removed duplicates is not negative, all five required
    columns were present, and the result names the file
    [data/processed_leads_<stamp>.json]. *)
Theorem upload_accounts_for_rows window s now clock stamp write_ok df dir
    res dir' :
  Upload.process_uploaded_leads window s now clock stamp write_ok (inr df) dir
    = (inr res, dir') ->
  Z.of_nat (Upload.leads_processed res) + Upload.duplicates_removed res
    = Z.of_nat (length (rows df)) /\
  0 <= Upload.duplicates_removed res /\
  (forall col, col ∈ Upload.required_columns -> col ∈ columns df) /\
  Upload.processed_file res = "data/processed_leads_" +:+ stamp +:+ ".json".
Proof.
  unfold Upload.process_uploaded_leads.
  destruct (List.filter _ Upload.required_columns) as [|m ms] eqn:Hmiss;
    [|discriminate].
  destruct write_ok; [|discriminate]. intros [= <- _]. simpl.
  rewrite processed_leads_from_length.
  pose proof (sublist_length _ _ (remove_duplicates_rows_sublist window s now df)).
  split; [lia|]. split; [lia|]. split; [|done].
  intros col Hcol. destruct (decide (col ∈ columns df)) as [|Hnin]; [done|].
  exfalso. assert (Hin : In col []); [|done].
  rewrite <- Hmiss. apply filter_In. split; [by apply list_elem_of_In|].
  by rewrite bool_decide_eq_false_2.
Qed.

Lemma upload_accounts_for_rows_witness :
  let df :=
    {| columns := ["first_name"; "last_name"; "company"; "title"; "email"];
       rows := [["A"; "B"; "C"; "T"; "a@x.com"];
                ["A"; "B"; "C"; "T"; "a@x.com"];
                ["A2"; "B"; "C"; "T"; "b@x.com"]] |} in
  exists res,
    Z.of_nat (Upload.leads_processed res) + Upload.duplicates_removed res
      = Z.of_nat (length (rows df)) /\
    0 <= Upload.duplicates_removed res /\
    (forall col, col ∈ Upload.required_columns -> col ∈ columns df) /\
    Upload.processed_file res
      = "data/processed_leads_" +:+ "20240101_090000" +:+ ".json".
Proof.
  intros df. eexists.
  eapply (upload_accounts_for_rows 30 empty_dedup 10 (fun i => Z.of_nat i)
            "20240101_090000" true df []).
  vm_compute. reflexivity.
Defined.

(** X15.  An upload that lacks one of the required columns raises a
    [ValueError] and writes no file. *)
Theorem upload_missing_column window s now clock stamp write_ok df dir col :
  col ∈ Upload.required_columns ->
  col ∉ columns df ->
  exists msg,
    Upload.process_uploaded_leads window s now clock stamp write_ok (inr df) dir
    = (inl (ValueError msg), dir).
Proof.
  intros Hreq Hnin. unfold Upload.process_uploaded_leads.
  destruct (List.filter _ Upload.required_columns) as [|m ms] eqn:Hmiss;
    [|by eexists].
  exfalso. assert (Hin : In col []); [|done].
  rewrite <- Hmiss. apply filter_In. split; [by apply list_elem_of_In|].
  by rewrite bool_decide_eq_false_2.
Qed.

Lemma upload_missing_column_witness :
  exists msg,
    Upload.process_uploaded_leads 30 empty_dedup 10 (fun i => Z.of_nat i)
      "20240101_090000" true
      (inr {| columns := ["first_name"; "company"; "email"];
              rows := [["A"; "C"; "a@x.com"]] |}) []
    = (inl (ValueError msg), []).
Proof.
  apply (upload_missing_column 30 empty_dedup 10 (fun i => Z.of_nat i)
           "20240101_090000" true _ [] "title").
  - apply elem_of_cons. right. apply elem_of_cons. right.
    apply elem_of_cons. right. apply elem_of_cons. by left.
  - vm_compute. intros H.
    repeat (apply elem_of_cons in H as [H|H]; [discriminate|]).
    by apply not_elem_of_nil in H.
Defined.

Lemma endswith_app suf s : endswith suf (s +:+ suf) = true.
Proof.
  induction s as [|a s IH]; simpl.
  - destruct suf; simpl; [done|]. by rewrite Ascii.eqb_refl, String.eqb_refl.
  - rewrite IH. apply orb_true_r.
Qed.

Lemma startswith_app pre s : startswith pre (pre +:+ s) = true.
Proof.
  unfold startswith. induction pre as [|a pre IH]; simpl.
  - by destruct s.
  - destruct (Ascii.ascii_dec a a); [exact IH | done].
Qed.

Lemma string_app_assoc (a b c : string) : (a +:+ b) +:+ c = a +:+ b +:+ c.
Proof.
  induction a as [|x a IH]; [reflexivity|].
  change (String x ((a +:+ b) +:+ c) = String x (a +:+ b +:+ c)).
  by f_equal.
Qed.

Lemma processed_file_name_matches stamp :
  startswith "processed_leads_" ("processed_leads_" +:+ stamp +:+ ".json")
  && endswith ".json" ("processed_leads_" +:+ stamp +:+ ".json") = true.
Proof.
  apply andb_true_iff. split; [apply startswith_app|].
  rewrite <- string_app_assoc. apply endswith_app.
Qed.

(** Every lead of a matching file is loaded. *)
Lemma load_processed_leads_contains dir all name leads lead :
  load_processed_leads dir = inr all ->
  (name, JsonLeads leads) ∈ dir ->
  startswith "processed_leads_" name && endswith ".json" name = true ->
  lead ∈ leads -> lead ∈ all.
Proof.
  unfold load_processed_leads. intros Hload Hin Hname Hlead.
  assert (Hgen : forall (d : Directory) acc r,
    exc_fold
      (fun (all_leads : list LeadData) (entry : string * FileContent) =>
         if startswith "processed_leads_" entry.1 && endswith ".json" entry.1
         then leads0 <- json_load entry.2 ;; ret (all_leads ++ leads0)%list
         else ret all_leads) d acc = inr r ->
    (lead ∈ acc -> lead ∈ r) /\
    ((name, JsonLeads leads) ∈ d -> lead ∈ r)).
  { induction d as [|[n c] d IH]; intros acc r; simpl.
    - intros [= <-]. split; [done|]. by intros ?%not_elem_of_nil.
    - intros H. apply exc_bind_inr in H as (acc' & Hstep & Hrest).
      destruct (IH _ _ Hrest) as [Hacc Hd].
      assert (Hmono : lead ∈ acc -> lead ∈ acc').
      { destruct (startswith "processed_leads_" n && endswith ".json" n);
          [|by injection Hstep as <-].
        destruct c as [ls|]; [|discriminate]. simpl in Hstep.
        injection Hstep as <-. intros ?. apply elem_of_app. by left. }
      split; [by intros ?; apply Hacc, Hmono|].
      intros [[= <- <-]|Hd']%elem_of_cons; [|by apply Hd].
      rewrite Hname in Hstep. simpl in Hstep. injection Hstep as <-.
      apply Hacc. apply elem_of_app. by right. }
  by apply (Hgen dir [] all Hload).
Qed.

Lemma write_file_elem name content dir :
  (name, content) ∈ Upload.write_file name content dir.
Proof.
  induction dir as [|[n c] dir IH]; simpl; [by left|].
  destruct (String.eqb n name); [by left | by right].
Qed.

(** X16.  Upload, then deliver: after a successful upload against a
    delivered index whose dates all parse, and when every file of the
    directory loads, each lead the upload stored is at once a candidate
    for every client whose exclusive flag is not set. *)
Theorem uploaded_leads_are_candidates window s now clock stamp df dir res dir'
    all c i j row :
  Upload.process_uploaded_leads window s now clock stamp true (inr df) dir
    = (inr res, dir') ->
  dates_parse (delivered_leads s) ->
  load_processed_leads dir' = inr all ->
  Client.exclusive c = false ->
  column_index "email" (columns df) = Some i ->
  rows (remove_duplicates window s now df) !! j = Some row ->
  Upload.lead_data_of_row (columns df) (clock j) row
    ∈ _get_available_leads window s now dir' c.
Proof.
  unfold Upload.process_uploaded_leads.
  destruct (List.filter _ Upload.required_columns) as [|m ms]; [|discriminate].
  intros [= _ <-] Hp Hload Hc Hcol Hrow.
  destruct (remove_duplicates_ok window s now df i Hcol Hp)
    as (recent & Hr & Hdf).
  assert (Hcols : columns (remove_duplicates window s now df) = columns df)
    by (by rewrite Hdf).
  rewrite Hcols in Hload |- *.
  apply (shared_client_candidates window s now _ c all _ Hc Hload).
  - apply Forall_forall. intros l _ [e He].
    destruct (is_lead_delivered_no_raise window s now (email l) Hp) as [b Hb].
    congruence.
  - eapply load_processed_leads_contains;
      [exact Hload | apply write_file_elem
      | apply processed_file_name_matches |].
    by apply (processed_leads_from_elem (columns df) clock 0 _ j row).
  - simpl. unfold Upload.row_get. rewrite Hcol.
    apply (not_recent_iff window s now recent); [done..|].
    apply list_elem_of_lookup_2 in Hrow. rewrite Hdf in Hrow. simpl in Hrow.
    by apply list_elem_of_filter in Hrow as [? _].
Qed.

Lemma uploaded_leads_are_candidates_witness :
  let df :=
    {| columns := ["first_name"; "last_name"; "company"; "title"; "email"];
       rows := [["A"; "B"; "C"; "T"; "a@x.com"];
                ["A"; "B"; "C"; "T"; "a@x.com"];
                ["A2"; "B"; "C"; "T"; "b@x.com"]] |} in
  let clock := fun i : nat => 10 + Z.of_nat i in
  let out :=
    Upload.process_uploaded_leads 30 empty_dedup 10 clock "20240101_090000"
      true (inr df) (Scenario.pool [Scenario.lead_c]) in
  Upload.lead_data_of_row (columns df) (clock 1%nat)
    ["A2"; "B"; "C"; "T"; "b@x.com"]
    ∈ _get_available_leads 30 empty_dedup 10 out.2 Scenario.client_F.
Proof.
  intros df clock out.
  eapply (uploaded_leads_are_candidates 30 empty_dedup 10 clock
            "20240101_090000" df (Scenario.pool [Scenario.lead_c])
            _ out.2 _ Scenario.client_F 4 1).
  - vm_compute. reflexivity.
  - apply dates_parse_empty.
  - vm_compute. reflexivity.
  - reflexivity.
  - reflexivity.
  - vm_compute. reflexivity.
Defined.

(** ** The [delivered_leads] table *)





(** X18.  [mark_lead_delivered] keeps the table a table: the keys
    (email, fingerprint) stay pairwise different, and the rows already
    there stay, unchanged and in place, at the head of the table. *)
Theorem mark_lead_delivered_keeps_unique now e f x tbl tbl' :
  NoDup (map delivered_key tbl) ->
  DatabaseManager.mark_lead_delivered now e f x tbl = inr tbl' ->
  NoDup (map delivered_key tbl') /\ tbl `prefix_of` tbl'.
Proof.
  intros Hnd. unfold DatabaseManager.mark_lead_delivered,
    DatabaseManager.insert_row. simpl.
  destruct (existsb (DatabaseManager.same_key e f) tbl) eqn:Hk;
    intros [= <-]; [done|].
  split; [|by apply prefix_app_r].
  rewrite map_app. simpl. apply NoDup_app. split; [done|]. split.
  - intros k (r & -> & Hr)%list_elem_of_fmap [= He Hf]%list_elem_of_singleton.
    assert (Hex : existsb (DatabaseManager.same_key e f) tbl = true);
      [|congruence].
    apply existsb_exists. exists r. split; [by apply list_elem_of_In|].
    unfold DatabaseManager.same_key. rewrite He, Hf.
    by rewrite !String.eqb_refl.
  - apply NoDup_singleton.
Qed.

Lemma mark_lead_delivered_keeps_unique_witness :
  let row := {| DatabaseManager.email := "a@x.com";
                DatabaseManager.fingerprint := "f1";
                DatabaseManager.exclusive := false;
                DatabaseManager.delivered_at := 7 |} in
  let row' := {| DatabaseManager.email := "a@x.com";
                 DatabaseManager.fingerprint := "f2";
                 DatabaseManager.exclusive := true;
                 DatabaseManager.delivered_at := 9 |} in
  NoDup (map delivered_key [row; row']) /\ [row] `prefix_of` [row; row'].
Proof.
  intros row row'.
  apply (mark_lead_delivered_keeps_unique 9 "a@x.com" "f2" true [row]).
  - apply NoDup_singleton.
  - reflexivity.
Defined.

(** ** The [leads] table *)

Lemma insert_sorted_elem r l x :
  x ∈ LeadsTable.insert_sorted r l <-> x = r \/ x ∈ l.
Proof.
  induction l as [|y l IH]; simpl.
  - rewrite list_elem_of_singleton. split; [by left | intros [?|?%not_elem_of_nil]; done].
  - destruct (LeadsTable.created_at y <? LeadsTable.created_at r).
    + rewrite !elem_of_cons, IH. tauto.
    + rewrite !elem_of_cons. tauto.
Qed.

Lemma insert_sorted_sorted r l :
  by_created_at l -> by_created_at (LeadsTable.insert_sorted r l).
Proof.
  unfold by_created_at. induction l as [|y l IH]; intros Hs; simpl.
  - repeat constructor.
  - apply StronglySorted_cons in Hs as [Hy Hs].
    destruct (Z.ltb_spec (LeadsTable.created_at y) (LeadsTable.created_at r)).
    + apply StronglySorted_cons. split; [|by apply IH].
      apply Forall_forall. intros z [->|Hz]%insert_sorted_elem; [lia|].
      by apply (proj1 (Forall_forall _ _) Hy).
    + apply StronglySorted_cons. split.
      * constructor; [done|]. eapply Forall_impl; [exact Hy|]. simpl. lia.
      * apply StronglySorted_cons. by split.
Qed.

Lemma order_by_created_at_elem l x :
  x ∈ LeadsTable.order_by_created_at l <-> x ∈ l.
Proof.
  unfold LeadsTable.order_by_created_at.
  induction l as [|y l IH]; simpl; [done|].
  rewrite insert_sorted_elem, elem_of_cons, IH. done.
Qed.

Lemma order_by_created_at_sorted l :
  by_created_at (LeadsTable.order_by_created_at l).
Proof.
  unfold LeadsTable.order_by_created_at.
  induction l as [|y l IH]; simpl; [constructor|].
  by apply insert_sorted_sorted.
Qed.

(** X19.  After [mark_leads_delivered(lead_ids)],
    [get_available_leads()] returns, oldest first, exactly the rows of
    the table that are not among the marked ids and had no delivery
    time: a marked lead is never offered again, and marking hides no
    other lead. *)
Theorem marked_leads_not_available now lead_ids t tbl :
  by_created_at
    (LeadsTable.get_available_leads true
       (LeadsTable.mark_leads_delivered now lead_ids t tbl)) /\
  (forall r,
     (r ∈ LeadsTable.get_available_leads true
            (LeadsTable.mark_leads_delivered now lead_ids t tbl)) <->
     (r ∈ tbl /\ (LeadsTable.lead_id r ∉ lead_ids) /\
      LeadsTable.delivered_at r = None)).
Proof.
  unfold LeadsTable.get_available_leads. split;
    [apply order_by_created_at_sorted|].
  intros r. rewrite order_by_created_at_elem.
  rewrite list_elem_of_In, filter_In.
  rewrite <- (list_elem_of_In _ r).
  unfold LeadsTable.mark_leads_delivered. rewrite list_elem_of_fmap. split.
  - intros [(r0 & -> & Hr0) Hnone].
    destruct (decide (LeadsTable.lead_id r0 ∈ lead_ids)) as [Hid|Hid].
    + rewrite (bool_decide_eq_true_2 _ Hid) in Hnone. simpl in Hnone.
      discriminate.
    + rewrite (bool_decide_eq_false_2 _ Hid) in Hnone |- *.
      split; [done|]. split; [done|].
      destruct (LeadsTable.delivered_at r0) eqn:Hd; [|done].
      rewrite bool_decide_eq_true_2 in Hnone by (by eexists). discriminate.
  - intros (Hin & Hid & Hnone). split.
    + exists r. split; [|done]. by rewrite bool_decide_eq_false_2.
    + rewrite Hnone. rewrite bool_decide_eq_false_2; [done|].
      by intros [? ?].
Qed.







(** ** Unreadable data *)

(** X21.  One unreadable file among the [processed_leads_*.json] files
    of the directory leaves every client without candidates: the
    candidate list is empty and the delivery raises
    [ValueError("No leads available for delivery")] without writing
    anything, whatever the other files hold. *)
Theorem unreadable_file_blocks_deliveries window env c s dir name :
  (name, NotJson) ∈ dir ->
  startswith "processed_leads_" name && endswith ".json" name = true ->
  _get_available_leads window s (now env) dir c = [] /\
  process_client_delivery window env c s dir
  = (inl (ValueError "No leads available for delivery"), s).
Proof.
  intros Hin Hname.
  assert (Hav : _get_available_leads window s (now env) dir c = []).
  { unfold _get_available_leads. apply try_except_raises.
    unfold get_available_leads_body. apply raises_bind_l.
    unfold load_processed_leads.
    apply exc_fold_raises with (a := (name, NotJson)); [done|].
    intros acc. simpl. rewrite Hname. by eexists. }
  split; [done | by apply no_candidates_raises].
Qed.

Lemma unreadable_file_blocks_deliveries_witness :
  let dir : Directory :=
    [("processed_leads_20240101_090000.json",
      JsonLeads [Scenario.lead_a; Scenario.lead_b]);
     ("processed_leads_20240102_090000.json", NotJson)] in
  let env := Scenario.env_at Scenario.day in
  _get_available_leads 30 empty_dedup (now env) dir Scenario.client_F = [] /\
  process_client_delivery 30 env Scenario.client_F empty_dedup dir
  = (inl (ValueError "No leads available for delivery"), empty_dedup).
Proof.
  intros dir env.
  apply (unreadable_file_blocks_deliveries 30 env Scenario.client_F empty_dedup
           dir "processed_leads_20240102_090000.json").
  - apply elem_of_cons. right. apply list_elem_of_singleton. reflexivity.
  - reflexivity.
Defined.

(** X22.  One stored delivery date that does not parse, for the e-mail
    of any lead of the pool, has the same effect: no candidates for any
    client, and the delivery raises without writing anything. *)
Theorem unreadable_date_blocks_deliveries window env c s dir all lead raw :
  load_processed_leads dir = inr all ->
  lead ∈ all ->
  delivered_leads s !! email lead = Some (Malformed raw) ->
  _get_available_leads window s (now env) dir c = [] /\
  process_client_delivery window env c s dir
  = (inl (ValueError "No leads available for delivery"), s).
Proof.
  intros Hload Hin Hraw.
  assert (Hav : _get_available_leads window s (now env) dir c = []).
  { unfold _get_available_leads. apply try_except_raises.
    unfold get_available_leads_body. rewrite Hload. simpl.
    apply raises_bind_l.
    apply exc_fold_raises with (a := lead); [done|].
    intros acc. unfold filter_step, is_lead_delivered. rewrite Hraw. simpl.
    by eexists. }
  split; [done | by apply no_candidates_raises].
Qed.

Lemma unreadable_date_blocks_deliveries_witness :
  let s := {| delivered_leads := {[ "b@x.com" := Malformed "yesterday" ]};
              exclusive_leads := ∅ |} in
  let dir := Scenario.pool [Scenario.lead_a; Scenario.lead_b] in
  let env := Scenario.env_at Scenario.day in
  _get_available_leads 30 s (now env) dir Scenario.client_F = [] /\
  process_client_delivery 30 env Scenario.client_F s dir
  = (inl (ValueError "No leads available for delivery"), s).
Proof.
  intros s dir env.
  apply (unreadable_date_blocks_deliveries 30 env Scenario.client_F s dir
           [Scenario.lead_a; Scenario.lead_b] Scenario.lead_b "yesterday").
  - reflexivity.
  - apply elem_of_cons. right. apply list_elem_of_singleton. reflexivity.
  - reflexivity.
Defined.

(** X23.  [clean_old_records] gives up silently on unreadable data: if
    any date of the delivered index does not parse, nothing is cleaned
    at all, however old the other entries of both dictionaries are. *)
Theorem clean_old_records_unreadable window s now k raw :
  delivered_leads s !! k = Some (Malformed raw) ->
  DedupMaintenance.clean_old_records window s now = s.
Proof.
  intros Hk. unfold DedupMaintenance.clean_old_records.
  assert (Hr : raises (DedupMaintenance.keep_newer
    (now - timedelta_days (window * 2)) (delivered_leads s))).
  { apply exc_fold_raises with (a := (k, Malformed raw)).
    - by apply elem_of_map_to_list.
    - intros acc. by eexists. }
  destruct Hr as [e ->]. done.
Qed.

Lemma clean_old_records_unreadable_witness :
  let s := {| delivered_leads :=
                {[ "a@x.com" := Iso 0; "z@x.com" := Malformed "yesterday" ]};
              exclusive_leads := {[ "a@x.com" := Iso 0 ]} |} in
  DedupMaintenance.clean_old_records 30 s (400 * Scenario.day) = s.
Proof.
  intros s.
  apply (clean_old_records_unreadable 30 s (400 * Scenario.day) "z@x.com"
           "yesterday").
  reflexivity.
Defined.

(** ** Exclusive and shared clients see the same pool *)

Lemma filter_step_raises_iff window s now c acc lead :
  raises (filter_step window s now c acc lead) <->
  raises (is_lead_delivered window s now (email lead)).
Proof.
  unfold filter_step.
  destruct (is_lead_delivered window s now (email lead)) as [e|b]; simpl.
  - split; intros _; by exists e.
  - split; [|by intros [e ?]].
    destruct b; simpl; [by intros [e ?]|].
    destruct (Client.exclusive c); [|by intros [e ?]].
    destruct (is_lead_exclusive_delivered s (email lead)); by intros [e ?].
Qed.

Lemma filter_loop_raises_iff window s now c all acc :
  raises (exc_fold (filter_step window s now c) all acc) <->
  exists lead, lead ∈ all /\
    raises (is_lead_delivered window s now (email lead)).
Proof.
  split.
  - intros (lead & acc' & Hin & Hr)%exc_fold_raises_inv.
    exists lead. split; [done|]. by apply filter_step_raises_iff in Hr.
  - intros (lead & Hin & Hr).
    apply exc_fold_raises with (a := lead); [done|].
    intros acc'. by apply filter_step_raises_iff.
Qed.

(** X24.  Exclusivity only restricts: at the same time, state and
    directory, the candidates of a client whose exclusive flag is set
    are candidates of a client whose flag is not set, in the same
    order; and when the exclusive index is empty the two lists are
    equal. *)
Theorem exclusive_candidates_among_shared window s now dir ce cs :
  Client.exclusive ce = true ->
  Client.exclusive cs = false ->
  sublist (_get_available_leads window s now dir ce)
    (_get_available_leads window s now dir cs) /\
  (exclusive_leads s = ∅ ->
   _get_available_leads window s now dir ce
   = _get_available_leads window s now dir cs).
Proof.
  intros He Hs. unfold _get_available_leads, get_available_leads_body.
  destruct (load_processed_leads dir) as [err|all]; simpl; [by split|].
  split.
  - destruct (exc_fold (filter_step window s now ce) all []) as [e1|l1] eqn:H1;
      simpl; [apply sublist_nil_l|].
    destruct (exc_fold (filter_step window s now cs) all []) as [e2|l2] eqn:H2;
      simpl.
    + exfalso.
      assert (Hr : raises (exc_fold (filter_step window s now ce) all []));
        [|destruct Hr; congruence].
      apply filter_loop_raises_iff.
      apply (filter_loop_raises_iff window s now cs all []). by exists e2.
    + apply filter_loop_inr in H1 as ->. apply filter_loop_inr in H2 as ->.
      simpl.
      rewrite <- (list_filter_filter_l
        (fun l => eligibleb window s now ce l)
        (fun l => eligibleb window s now cs l)).
      * apply sublist_filter.
      * intros l. unfold eligibleb, eligible. rewrite He, Hs.
        destruct (is_lead_delivered window s now (email l)) as [?|[|]];
          simpl; [done..|].
        by destruct (is_lead_exclusive_delivered s (email l)).
  - intros Hempty.
    rewrite (exc_fold_ext (filter_step window s now ce)
               (filter_step window s now cs)); [done|].
    intros acc l. unfold filter_step, is_lead_exclusive_delivered.
    rewrite He, Hs, Hempty, lookup_empty. simpl.
    by destruct (is_lead_delivered window s now (email l)) as [?|[|]].
Qed.

Lemma exclusive_candidates_among_shared_witness :
  let s := mark_leads_as_delivered 0 ["a@x.com"] true empty_dedup in
  let now := 40 * Scenario.day in
  let dir := Scenario.pool [Scenario.lead_a; Scenario.lead_b] in
  _get_available_leads 30 s now dir Scenario.client_E = [Scenario.lead_b] /\
  _get_available_leads 30 s now dir Scenario.client_F
    = [Scenario.lead_a; Scenario.lead_b] /\
  sublist (_get_available_leads 30 s now dir Scenario.client_E)
    (_get_available_leads 30 s now dir Scenario.client_F) /\
  (exclusive_leads s = ∅ ->
   _get_available_leads 30 s now dir Scenario.client_E
   = _get_available_leads 30 s now dir Scenario.client_F).
Proof.
  intros s now dir. split; [vm_compute; reflexivity|].
  split; [vm_compute; reflexivity|].
  apply (exclusive_candidates_among_shared 30 s now dir Scenario.client_E
           Scenario.client_F); reflexivity.
Defined.

(** ** [mark_leads_as_delivered] *)

(** X25.  What [mark_leads_as_delivered(emails, exclusive)] writes:
    every given e-mail gets the current time in the delivered
    dictionary and, when [exclusive] is true, in the exclusive
    dictionary as well; every other entry of either dictionary is as
    before, and with [exclusive] false the exclusive dictionary is not
    written at all. *)
Theorem mark_leads_as_delivered_effect now emails x s e :
  delivered_leads (mark_leads_as_delivered now emails x s) !! e
  = (if bool_decide (e ∈ emails) then Some (Iso now)
     else delivered_leads s !! e) /\
  exclusive_leads (mark_leads_as_delivered now emails x s) !! e
  = (if x && bool_decide (e ∈ emails) then Some (Iso now)
     else exclusive_leads s !! e).
Proof.
  split; [apply mark_leads_delivered_lookup|].
  destruct x; simpl.
  - apply mark_leads_exclusive_lookup.
  - by rewrite mark_leads_exclusive_leads.
Qed.

(** ** [run_manual_processing] for one client *)

Lemma find_client_None cid cs :
  Forall (fun c => Client.id c <> cid) cs -> ManualRun.find_client cid cs = None.
Proof.
  induction 1 as [|c cs Hc _ IH]; simpl; [done|].
  destruct (Z.eqb_spec (Client.id c) cid); [done | exact IH].
Qed.

(** X26.  [run_manual_processing(client_id)] for a non-zero id that no
    entry of [clients.json] carries raises
    [ValueError("Client <id> not found")] and leaves the deduplication
    state as it was. *)
Theorem manual_run_unknown_client window env cid cs s dir :
  cid <> 0 ->
  Forall (fun c => Client.id c <> cid) cs ->
  ManualRun.run_manual_processing window env (Some cid) (Some cs) s dir
  = (inl (ValueError ("Client " +:+ pretty cid +:+ " not found")), s).
Proof.
  intros Hz Hcs. unfold ManualRun.run_manual_processing.
  destruct (Z.eqb_spec cid 0); [done|].
  by rewrite (find_client_None cid cs Hcs).
Qed.

Lemma manual_run_unknown_client_witness :
  ManualRun.run_manual_processing 30 (Scenario.env_at Scenario.day) (Some 42)
    (Some [Scenario.client_E; Scenario.client_F]) empty_dedup
    (Scenario.pool [Scenario.lead_a])
  = (inl (ValueError ("Client " +:+ pretty 42 +:+ " not found")), empty_dedup).
Proof.
  apply (manual_run_unknown_client 30 (Scenario.env_at Scenario.day) 42
           [Scenario.client_E; Scenario.client_F] empty_dedup
           (Scenario.pool [Scenario.lead_a])).
  - discriminate.
  - repeat constructor; discriminate.
Defined.
